(** * A shallow embedding of [learning_ai_opponent.py]

    Floats are modelled as rationals [Q]; Python dicts as association
    lists kept in insertion order; numpy matrices as lists of rows.
    The claim grammar ([compare_claims], [next_higher_claim],
    [categorize_claim], [claim_matches_roll]) is injected through
    [set_rules]; it is a Section variable below, i.e. the rules are set. *)

From Stdlib Require Import QArith Qfield List String ZArith Lia Lqa Bool.
Import ListNotations.
Open Scope Q_scope.

(** ** Python dicts as association lists *)

Module Dict.

(** [d.get(k)] *)
Fixpoint get {V} (k : string) (d : list (string * V)) : option V :=
  match d with
  | [] => None
  | (k', v) :: t => if String.eqb k k' then Some v else get k t
  end.

(** [d.get(k, default)] *)
Definition get_default {V} (k : string) (dflt : V) (d : list (string * V)) : V :=
  match get k d with Some v => v | None => dflt end.

(** [d[k] = v]: in place when present, appended otherwise. *)
Fixpoint set {V} (k : string) (v : V) (d : list (string * V)) : list (string * V) :=
  match d with
  | [] => [(k, v)]
  | (k', v') :: t => if String.eqb k k' then (k', v) :: t else (k', v') :: set k v t
  end.

(** [d.setdefault(k, v)]: returns the stored value and the new dict. *)
Definition setdefault {V} (k : string) (v : V) (d : list (string * V)) : V * list (string * V) :=
  match get k d with
  | Some v' => (v', d)
  | None => (v, d ++ [(k, v)])
  end.

Definition keys {V} (d : list (string * V)) : list string := map fst d.

End Dict.

(** ** [BetaTracker] *)

Record BetaTracker := mkBeta { alpha : Q; beta : Q }.

Definition mean (t : BetaTracker) : Q := alpha t / (alpha t + beta t).

Definition update (t : BetaTracker) (success : bool) : BetaTracker :=
  if success then mkBeta (alpha t + 1) (beta t) else mkBeta (alpha t) (beta t + 1).

(** [self.thompson()] is [random.betavariate(alpha, beta)]: one random
    draw, taken here to be the sample itself. *)

(** ** [OpponentProfile] *)

Record OpponentProfile := mkProfile {
  bluff_rate : list (string * BetaTracker);
  call_rate : BetaTracker;
  small_raise_pref : BetaTracker }.

(** The dataclass defaults ([OpponentProfile()]). *)
Definition default_bluff_rate : list (string * BetaTracker) :=
  [("mexican", mkBeta 1 3); ("double", mkBeta 1 2); ("normal", mkBeta 1 1)]%string.

Definition OpponentProfile_default : OpponentProfile :=
  mkProfile default_bluff_rate (mkBeta 1 2) (mkBeta 1 1).

(** ** [LinUCB] *)

Definition Vec := list Q.
Definition Mat := list (list Q).

(** [np.eye(d)] *)
Definition eye (d : nat) : Mat :=
  map (fun i => map (fun j => if Nat.eqb i j then 1 else 0) (seq 0 d)) (seq 0 d).

(** [np.zeros((d, 1))] *)
Definition zeros_col (d : nat) : Mat := repeat [0] d.

(** [x @ x.T] for a column vector [x] *)
Definition outer (x : Vec) : Mat := map (fun xi => map (fun xj => xi * xj) x) x.

Definition mat_add (A B : Mat) : Mat := map (fun '(r, s) => map (fun '(a, b) => a + b) (combine r s)) (combine A B).

(** [x.reshape(-1, 1)] and [.flatten()] *)
Definition col (x : Vec) : Mat := map (fun a => [a]) x.
Definition flatten (m : Mat) : Vec := List.concat m.

Record LinUCB := mkLinUCB { lin_d : nat; lin_alpha : Q; A : Mat; b : Mat }.

Definition LinUCB_init (d : nat) (a : Q) : LinUCB := mkLinUCB d a (eye d) (zeros_col d).

(** [LinUCB.update]: [A += x x^T; b += reward * x]. numpy rejects a
    vector whose length does not broadcast against [A]; such inputs
    lie outside the engine's 9-dimensional feature vectors and are not
    modelled. *)
Definition lin_update (l : LinUCB) (x : Vec) (reward : Q) : LinUCB :=
  mkLinUCB (lin_d l) (lin_alpha l) (mat_add (A l) (outer x))
           (mat_add (b l) (col (map (fun xi => reward * xi) x))).

(** ** Claims, actions and the engine state *)

Definition Claim := (Z * Z)%type.
Definition Roll := (Z * Z)%type.

(** The returned dicts [{"type": "call_bluff"}] and
    [{"type": "raise", "claim": c}]. *)
Inductive Action := CallBluff | Raise (c : Claim).

(** [_last_context]: [(opponent_id, "CALL" | "RAISE", context vector)]. *)
Definition PendingContext := (string * string * Vec)%type.

Record Engine := mkEngine {
  profiles : list (string * OpponentProfile);   (* [_profiles], a defaultdict *)
  bandit : LinUCB;
  call_risk_bias : Q;
  raise_bluff_cap : Q;
  truth_bias : Q;
  last_context : option PendingContext }.

(** [LearningAIDiceOpponent.__init__] (rules unset until [set_rules]). *)
Definition Engine_init : Engine :=
  mkEngine [] (LinUCB_init 9 (9 # 10)) (5 # 100) (60 # 100) (15 # 100) None.

Definition set_profiles (e : Engine) (ps : list (string * OpponentProfile)) : Engine :=
  mkEngine ps (bandit e) (call_risk_bias e) (raise_bluff_cap e) (truth_bias e) (last_context e).
Definition set_bandit (e : Engine) (l : LinUCB) : Engine :=
  mkEngine (profiles e) l (call_risk_bias e) (raise_bluff_cap e) (truth_bias e) (last_context e).
Definition set_last (e : Engine) (c : option PendingContext) : Engine :=
  mkEngine (profiles e) (bandit e) (call_risk_bias e) (raise_bluff_cap e) (truth_bias e) c.

(** [self._profiles[opponent_id]] on the defaultdict: the stored profile,
    or a fresh [OpponentProfile()] inserted first. *)
Definition profile_get (opp_id : string) (ps : list (string * OpponentProfile))
  : OpponentProfile * list (string * OpponentProfile) :=
  Dict.setdefault opp_id OpponentProfile_default ps.

(** ** Persisted state: [state()] and [load_state] *)

Record PProfile := mkPProfile {
  p_bluff_rate : list (string * (Q * Q));
  p_call_rate : Q * Q;
  p_small_raise_pref : Q * Q }.

(** [{"bandit": {"A": ..., "b": ...}, "profiles": {...}}]; the bandit
    entry is optional on loading ([if "bandit" in state]). *)
Record PState := mkPState {
  p_bandit : option (Mat * Vec);
  p_profiles : list (string * PProfile) }.

Definition pair_of (t : BetaTracker) : Q * Q := (alpha t, beta t).

Definition profile_state (p : OpponentProfile) : PProfile :=
  mkPProfile (map (fun '(k, v) => (k, pair_of v)) (bluff_rate p))
             (pair_of (call_rate p)) (pair_of (small_raise_pref p)).

Definition state (e : Engine) : PState :=
  mkPState (Some (A (bandit e), flatten (b (bandit e))))
           (map (fun '(opp_id, p) => (opp_id, profile_state p)) (profiles e)).

(** The body of [for k, (a, b) in data["bluff_rate"].items()]. *)
Definition load_bluff_entry (br : list (string * BetaTracker)) (kab : string * (Q * Q))
  : list (string * BetaTracker) :=
  let '(k, (a, b')) := kab in
  let '(t, br) := Dict.setdefault k (mkBeta 1 1) br in
  let br := Dict.set k (mkBeta a (beta t)) br in
  Dict.set k (mkBeta a b') br.

Definition load_profile (data : PProfile) : OpponentProfile :=
  let prof := OpponentProfile_default in
  let br := fold_left load_bluff_entry (p_bluff_rate data) (bluff_rate prof) in
  let '(a, b1) := p_call_rate data in
  let '(a2, b2) := p_small_raise_pref data in
  mkProfile br (mkBeta a b1) (mkBeta a2 b2).

Definition load_state (e : Engine) (st : PState) : Engine :=
  let e := match p_bandit st with
           | Some (A', b') =>
               let l := bandit e in
               set_bandit e (mkLinUCB (lin_d l) (lin_alpha l) A' (col b'))
           | None => e
           end in
  fold_left (fun e '(opp_id, data) =>
               set_profiles e (Dict.set opp_id (load_profile data) (profiles e)))
            (p_profiles st) e.

(** ** Randomness

    The [random] module is a list of draws, each call consuming one:
    [random.random()] is the draw itself, [betavariate] (Thompson
    sampling) is the drawn sample, [random.choice([1, 1, 2])] picks by
    thirds of a uniform draw. An exhausted list yields [0]. *)

Definition rnd (rs : list Q) : Q * list Q :=
  match rs with [] => (0, []) | r :: t => (r, t) end.

Definition qlt (x y : Q) : bool := negb (Qle_bool y x).

Definition choice_112 (u : Q) : nat :=
  if qlt u (1 # 3) then 1%nat else if qlt u (2 # 3) then 1%nat else 2%nat.

(** ** The decision engine, over the injected claim grammar *)

Section Rules.

Variable compare_claims : Claim -> Claim -> Z.
Variable next_higher_claim : Claim -> Claim.
Variable categorize_claim : Claim -> string.
Variable claim_matches_roll : Claim -> Roll -> bool.

(** [mu + bonus] of [LinUCB.choose] for one context: [theta^T x +
    alpha * sqrt(x^T A^-1 x)] with [theta = A^-1 b], computed by numpy in
    floating point; it only reads the bandit. *)
Variable ucb_score : LinUCB -> Vec -> Q.

(** [LinUCB.choose({"CALL": ctx_call, "RAISE": ctx_raise})]: [max] keeps
    the first key unless a later one scores strictly higher. *)
Definition choose (l : LinUCB) (ctx_call ctx_raise : Vec) : string :=
  if qlt (ucb_score l ctx_call) (ucb_score l ctx_raise) then "RAISE"%string else "CALL"%string.

Definition canonical_claim_from_roll (roll : Roll) : Claim :=
  (Z.max (fst roll) (snd roll), Z.min (fst roll) (snd roll)).

Definition best_truthful_above (current_claim : Claim) (my_roll : Roll) : option Claim :=
  let truth_claim := canonical_claim_from_roll my_roll in
  if (0 <? compare_claims truth_claim current_claim)%Z then Some truth_claim else None.

(** [for _ in range(step): claim = self.next_higher_claim(claim)] *)
Definition steps_up (step : nat) (claim : Claim) : Claim :=
  Nat.iter step next_higher_claim claim.

(** The step count of [_pick_pressure_claim] for the draw [r]. *)
Definition pressure_steps (p_call r : Q) (allow_bluff : bool) : nat :=
  if allow_bluff then
    let extra := if qlt (55 # 100) p_call && qlt r (1 # 2) then 1%nat else 0%nat in
    let extra := if qlt (65 # 100) p_call && qlt r (1 # 4) then 2%nat else extra in
    (1 + extra)%nat
  else 1%nat.

Definition pick_pressure_claim (current_claim : Claim) (allow_bluff : bool)
    (opp : OpponentProfile) (rs : list Q) : Claim * list Q :=
  let p_call := mean (call_rate opp) in
  if allow_bluff then
    let '(r, rs) := rnd rs in
    (steps_up (pressure_steps p_call r true) current_claim, rs)
  else (steps_up 1 current_claim, rs).

Definition pressure_jump_above (baseline : Claim) (rs : list Q) : Claim * list Q :=
  let '(u, rs) := rnd rs in (steps_up (choice_112 u) baseline, rs).

Definition is_weak_truth (claim : Claim) : bool :=
  String.eqb (categorize_claim claim) "normal".

Definition cat_onehot (cat : string) : Vec :=
  [if String.eqb cat "mexican" then 1 else 0;
   if String.eqb cat "double" then 1 else 0;
   if String.eqb cat "normal" then 1 else 0].

(** The [while] loop of [_distance_from_next]; [fuel] bounds the
    [steps < 20] guard. *)
Fixpoint distance_loop (truth : Claim) (fuel steps : nat) (cur : Claim) : nat :=
  match fuel with
  | O => steps
  | S fuel' =>
      if (compare_claims cur truth <? 0)%Z && Nat.ltb steps 20
      then distance_loop truth fuel' (S steps) (next_higher_claim cur)
      else steps
  end.

Definition distance_from_next (current_claim : Claim) (my_roll : Roll) : Q :=
  let truth := canonical_claim_from_roll my_roll in
  if (compare_claims truth current_claim <=? 0)%Z then 0
  else inject_Z (Z.of_nat (distance_loop truth 20 0 current_claim)).

(** Modelled from the spec: [_make_context], called by [decide_action]
    but not defined in the source file. The spec's 9-dimensional vector:
    the 3-slot category one-hot, the bluff-rate mean, the call-rate mean,
    the truthful-claim-above flag, the distance, the round index and the
    action-flag bit. *)
Definition make_context (current_claim : Claim) (round_index : Z) (onehot : Vec)
    (cat_bluff_mean p_call_mean : Q) (has_truth : bool) (dist flag : Q) : Vec :=
  onehot ++ [cat_bluff_mean; p_call_mean; if has_truth then 1 else 0;
             dist; inject_Z round_index; flag].

(** The two context vectors of lines 110-134 for the profile [opp]. *)
Definition contexts (opp : OpponentProfile) (current_claim : Claim) (my_roll : Roll)
    (round_index : Z) (truthful : option Claim) : Vec * Vec :=
  let cat := categorize_claim current_claim in
  let cat_bluff_mean := mean (Dict.get_default cat (mkBeta 1 1) (bluff_rate opp)) in
  let p_call_mean := mean (call_rate opp) in
  let dist := distance_from_next current_claim my_roll in
  let has_truth := match truthful with Some _ => true | None => false end in
  (make_context current_claim round_index (cat_onehot cat)
     cat_bluff_mean p_call_mean has_truth dist 0,
   make_context current_claim round_index (cat_onehot cat)
     cat_bluff_mean p_call_mean has_truth dist 1).

(** Lines 145-154: the raise, recorded as the pending context. *)
Definition raise_branch (e : Engine) (opponent_id : string) (current_claim : Claim)
    (opp : OpponentProfile) (truthful : option Claim) (ctx_raise : Vec) (rs : list Q)
  : Action * Engine * list Q :=
  let '(claim, rs) :=
    match truthful with
    | Some t =>
        let '(r, rs) := rnd rs in
        if qlt r ((7 # 10) + truth_bias e) then (t, rs)
        else pick_pressure_claim current_claim true opp rs
    | None => pick_pressure_claim current_claim true opp rs
    end in
  (Raise claim, set_last e (Some (opponent_id, "RAISE"%string, ctx_raise)), rs).

(** [decide_action] after the truthful fast path (line 109 on). *)
Definition decide_bandit (e : Engine) (opponent_id : string) (current_claim : Claim)
    (my_roll : Roll) (round_index : Z) (truthful : option Claim) (rs : list Q)
  : Action * Engine * list Q :=
  let '(opp, ps) := profile_get opponent_id (profiles e) in
  let e := set_profiles e ps in
  let '(ctx_call, ctx_raise) := contexts opp current_claim my_roll round_index truthful in
  let choice := choose (bandit e) ctx_call ctx_raise in
  if String.eqb choice "CALL" then
    let '(p_bluff_sample, rs) := rnd rs in
    let ev_call := (2 * p_bluff_sample - 1) - call_risk_bias e in
    if Qle_bool (- (15 # 100)) ev_call
    then (CallBluff, set_last e (Some (opponent_id, "CALL"%string, ctx_call)), rs)
    else raise_branch e opponent_id current_claim opp truthful ctx_raise rs
  else raise_branch e opponent_id current_claim opp truthful ctx_raise rs.

Definition decide_action (e : Engine) (opponent_id : string) (current_claim : option Claim)
    (my_roll : Roll) (round_index : Z) (rs : list Q) : Action * Engine * list Q :=
  match current_claim with
  | None =>
      let opening := canonical_claim_from_roll my_roll in
      let '(opening, rs) :=
        if is_weak_truth opening then pressure_jump_above (3, 2)%Z rs else (opening, rs) in
      (Raise opening, set_last e None, rs)
  | Some cur =>
      let truthful := best_truthful_above cur my_roll in
      match truthful with
      | Some t =>
          let '(r, rs') := rnd rs in
          if qlt r ((65 # 100) + truth_bias e) then (Raise t, set_last e None, rs')
          else decide_bandit e opponent_id cur my_roll round_index truthful rs'
      | None => decide_bandit e opponent_id cur my_roll round_index truthful rs
      end
  end.

Definition observe_showdown (e : Engine) (opponent_id : string) (opponent_claim : Claim)
    (actual_opponent_roll : Roll) (caller_is_cpu : bool) : Engine :=
  let was_bluff := negb (claim_matches_roll opponent_claim actual_opponent_roll) in
  let cat := categorize_claim opponent_claim in
  let '(p, ps) := profile_get opponent_id (profiles e) in
  let '(t, br) := Dict.setdefault cat (mkBeta 1 1) (bluff_rate p) in
  let p := mkProfile (Dict.set cat (update t was_bluff) br) (call_rate p) (small_raise_pref p) in
  set_profiles e (Dict.set opponent_id p ps).

Definition observe_our_raise_resolved (e : Engine) (opponent_id : string) (cpu_claim : Claim)
    (cpu_roll : Roll) (opponent_called : bool) : Engine :=
  let '(p, ps) := profile_get opponent_id (profiles e) in
  let p := mkProfile (bluff_rate p) (update (call_rate p) opponent_called) (small_raise_pref p) in
  set_profiles e (Dict.set opponent_id p ps).

Fixpoint step_loop (target : Claim) (fuel steps : nat) (cur : Claim) : nat :=
  match fuel with
  | O => steps
  | S fuel' =>
      if (compare_claims cur target <? 0)%Z && Nat.ltb steps 30
      then step_loop target fuel' (S steps) (next_higher_claim cur)
      else steps
  end.

Definition step_distance (a b' : Claim) : nat :=
  if (0 <=? compare_claims a b')%Z then 0%nat else step_loop b' 30 0 a.

Definition observe_opponent_raise_size (e : Engine) (opponent_id : string)
    (current_claim new_claim : Claim) : Engine :=
  let small := Nat.eqb (step_distance current_claim new_claim) 1 in
  let '(p, ps) := profile_get opponent_id (profiles e) in
  let p := mkProfile (bluff_rate p) (call_rate p) (update (small_raise_pref p) small) in
  set_profiles e (Dict.set opponent_id p ps).

End Rules.

Definition observe_round_outcome (e : Engine) (did_cpu_win_round : bool) : Engine :=
  match last_context e with
  | None => e
  | Some (_, _, ctx) =>
      let reward := if did_cpu_win_round then 1 else -1 in
      set_last (set_bandit e (lin_update (bandit e) ctx reward)) None
  end.

(** ** A concrete claim grammar

    Modelled from the spec: the default claim grammar, an external
    collaborator absent from the source. The order of the dice game the
    spec describes (Maexchen): the normal claims [(hi, lo)], ordered by
    [hi] then [lo], below the doubles, below the "mexican" (2, 1). *)
Definition mx_order : list Claim :=
  [(3,1); (3,2); (4,1); (4,2); (4,3); (5,1); (5,2); (5,3); (5,4);
   (6,1); (6,2); (6,3); (6,4); (6,5);
   (1,1); (2,2); (3,3); (4,4); (5,5); (6,6); (2,1)]%Z.

Definition claim_eqb (c d : Claim) : bool := Z.eqb (fst c) (fst d) && Z.eqb (snd c) (snd d).

Fixpoint index_of (c : Claim) (l : list Claim) : Z :=
  match l with
  | [] => (-1)%Z
  | d :: t => if claim_eqb c d then 0%Z else
               let i := index_of c t in if (i <? 0)%Z then i else (i + 1)%Z
  end.

Definition mx_compare (c d : Claim) : Z := Z.sgn (index_of c mx_order - index_of d mx_order).

Definition mx_next (c : Claim) : Claim :=
  nth (Z.to_nat (index_of c mx_order + 1)) mx_order (2, 1)%Z.

Definition mx_category (c : Claim) : string :=
  if claim_eqb c (2, 1)%Z then "mexican" else if Z.eqb (fst c) (snd c) then "double" else "normal".

Definition mx_matches (c : Claim) (roll : Roll) : bool :=
  claim_eqb c (canonical_claim_from_roll roll).

(** A constant scorer: both actions tie, so [choose] keeps "CALL". *)
Definition flat_score (l : LinUCB) (x : Vec) : Q := 0.

Definition st_only_double : PState :=
  mkPState None [("p", mkPProfile [("double", (2, 10))] (1, 2) (1, 1))]%string.

Definition st_empty_bluff : PState :=
  mkPState (Some (eye 9, repeat 0 9)) [("p", mkPProfile [] (1, 2) (1, 1))]%string.

(** A state with a non-default bandit and a profile whose pairs all
    differ from the defaults, one category outside the default ones. *)
Definition A_loaded : Mat := map (map (Qmult 2)) (eye 9).
Definition b_loaded : Vec := repeat 1 9.

Definition st_loaded : PState :=
  mkPState (Some (A_loaded, b_loaded))
    [("p", mkPProfile [("double", (2, 10)); ("special", (3, 4))] (5, 7) (2, 3))]%string.

(** A grammar that also labels (3, 1) and (4, 1) "special", a category
    absent from the default profile (the source's comment mentions it). *)
Definition sp_category (c : Claim) : string :=
  if claim_eqb c (3, 1)%Z || claim_eqb c (4, 1)%Z then "special"%string else mx_category c.

(** An engine that already knows the opponent "p". *)
Definition engine_with_p : Engine :=
  set_profiles Engine_init [("p"%string, OpponentProfile_default)].

(** A run of [update] calls on one tracker. *)
Definition updates (t : BetaTracker) (outcomes : list bool) : BetaTracker :=
  fold_left update outcomes t.

(** How many of [outcomes] equal [x]. *)
Fixpoint qcount (x : bool) (outcomes : list bool) : Q :=
  match outcomes with
  | [] => 0
  | y :: t => (if Bool.eqb x y then 1 else 0) + qcount x t
  end.

(** An engine holding a pending context. *)
Definition engine_pending : Engine :=
  set_last Engine_init (Some ("p"%string, "RAISE"%string, repeat 1 9)).

(** Matrix entry [M[i][j]] (rows of a well-shaped matrix only). *)
Definition entry (M : Mat) (i j : nat) : Q := nth j (nth i M []) 0.

Fixpoint qsum (f : nat -> Q) (n : nat) : Q :=
  match n with O => 0 | S n' => qsum f n' + f n' end.

(** The quadratic form [v^T M v]. *)
Definition quad_form (M : Mat) (v : Vec) : Q :=
  qsum (fun i => qsum (fun j => nth i v 0 * entry M i j * nth j v 0) (List.length v)) (List.length v).

(** A [d x d] matrix. *)
Definition shaped (d : nat) (M : Mat) : Prop :=
  List.length M = d /\ Forall (fun r => List.length r = d) M.

(** A sequence of [LinUCB.update(x, reward)] calls. *)
Definition train (l : LinUCB) (us : list (Vec * Q)) : LinUCB :=
  fold_left (fun l u => lin_update l (fst u) (snd u)) us l.

(** [x . v] over the first [d] coordinates. *)
Definition dot_d (d : nat) (x v : Vec) : Q := qsum (fun i => nth i x 0 * nth i v 0) d.

(** The invariant kept by [LinUCB.update]: shape, symmetry, and
    [v^T A v >= |v|^2]. *)
Definition design_inv (d : nat) (M : Mat) : Prop :=
  shaped d M /\
  (forall i j, (i < d)%nat -> (j < d)%nat -> entry M i j == entry M j i) /\
  (forall v, List.length v = d -> qsum (fun i => nth i v 0 * nth i v 0) d <= quad_form M v).

(** A grammar whose successor always climbs: claims ranked by
    [7 * fst + snd], [next] bumps the low die. *)
Definition toy_rank (c : Claim) : Z := (7 * fst c + snd c)%Z.
Definition toy_compare (c d : Claim) : Z := Z.sgn (toy_rank c - toy_rank d).
Definition toy_next (c : Claim) : Claim := (fst c, snd c + 1)%Z.

(** * Properties *)

(** ** Association-list lemmas *)

Lemma get_set {V} (k k' : string) (v : V) (d : list (string * V)) :
  Dict.get k (Dict.set k' v d) = if String.eqb k k' then Some v else Dict.get k d.
Proof.
  induction d as [|[k0 v0] t IH]; simpl.
  - reflexivity.
  - destruct (String.eqb k' k0) eqn:E1.
    + apply String.eqb_eq in E1; subst k0. simpl.
      destruct (String.eqb k k'); reflexivity.
    + simpl. rewrite IH. destruct (String.eqb k k0) eqn:E2; [|reflexivity].
      apply String.eqb_eq in E2; subst k0.
      destruct (String.eqb k k') eqn:E3; [|reflexivity].
      apply String.eqb_eq in E3; subst k'. rewrite String.eqb_refl in E1. discriminate.
Qed.

Lemma get_app_single {V} (k k' : string) (v : V) (d : list (string * V)) :
  Dict.get k (d ++ [(k', v)]) =
  match Dict.get k d with Some x => Some x | None => if String.eqb k k' then Some v else None end.
Proof.
  induction d as [|[k0 v0] t IH]; simpl.
  - reflexivity.
  - destruct (String.eqb k k0); [reflexivity | exact IH].
Qed.

Lemma get_setdefault {V} (k k' : string) (v : V) (d : list (string * V)) :
  Dict.get k (snd (Dict.setdefault k' v d)) =
  match Dict.get k d with Some x => Some x | None => if String.eqb k k' then Some v else None end.
Proof.
  unfold Dict.setdefault. destruct (Dict.get k' d) eqn:E; simpl.
  - destruct (Dict.get k d) eqn:E2; [reflexivity|].
    destruct (String.eqb k k') eqn:E3; [|reflexivity].
    apply String.eqb_eq in E3; subst k'. congruence.
  - apply get_app_single.
Qed.

Lemma get_In_keys {V} (k : string) (d : list (string * V)) :
  Dict.get k d = None <-> ~ In k (Dict.keys d).
Proof.
  induction d as [|[k0 v0] t IH]; simpl.
  - tauto.
  - destruct (String.eqb k k0) eqn:E.
    + apply String.eqb_eq in E; subst. split; [discriminate | tauto].
    + apply String.eqb_neq in E. rewrite IH. split; intros H; [intros [H'|H']; congruence|tauto].
Qed.

(** Folding a keyed write over a dict with distinct keys: the last
    (and only) write of each key wins. *)
Lemma get_fold_writes {V W} (step : list (string * W) -> string * V -> list (string * W))
    (f : V -> W) (l : list (string * V)) (d : list (string * W)) (k : string) :
  (forall acc k1 v1 k2, Dict.get k2 (step acc (k1, v1)) =
                        if String.eqb k2 k1 then Some (f v1) else Dict.get k2 acc) ->
  NoDup (Dict.keys l) ->
  Dict.get k (fold_left step l d) =
  match Dict.get k l with Some v => Some (f v) | None => Dict.get k d end.
Proof.
  intros Hstep. revert d.
  induction l as [|[k1 v1] t IH]; intros d Hnd; simpl.
  - reflexivity.
  - inversion Hnd as [|? ? Hnin Hnd']; subst.
    rewrite IH by exact Hnd'. rewrite Hstep.
    destruct (String.eqb k k1) eqn:E.
    + apply String.eqb_eq in E; subst k1.
      assert (Dict.get k t = None) as -> by (apply get_In_keys; exact Hnin). reflexivity.
    + destruct (Dict.get k t); reflexivity.
Qed.

Lemma get_load_bluff_entry (br : list (string * BetaTracker)) (k1 : string) (ab : Q * Q) (k2 : string) :
  Dict.get k2 (load_bluff_entry br (k1, ab)) =
  if String.eqb k2 k1 then Some (mkBeta (fst ab) (snd ab)) else Dict.get k2 br.
Proof.
  destruct ab as [a b']. unfold load_bluff_entry.
  destruct (Dict.setdefault k1 (mkBeta 1 1) br) as [t br'] eqn:Hsd.
  rewrite !get_set. simpl.
  destruct (String.eqb k2 k1) eqn:E; [reflexivity|].
  change br' with (snd (t, br')). rewrite <- Hsd, get_setdefault, E.
  destruct (Dict.get k2 br); reflexivity.
Qed.

Lemma load_profile_bluff (data : PProfile) (k : string) :
  NoDup (Dict.keys (p_bluff_rate data)) ->
  Dict.get k (bluff_rate (load_profile data)) =
  match Dict.get k (p_bluff_rate data) with
  | Some (a, b') => Some (mkBeta a b')
  | None => Dict.get k default_bluff_rate
  end.
Proof.
  intros Hnd. unfold load_profile.
  destruct (p_call_rate data), (p_small_raise_pref data). simpl.
  rewrite (get_fold_writes load_bluff_entry (fun ab => mkBeta (fst ab) (snd ab))).
  - destruct (Dict.get k (p_bluff_rate data)) as [[a b']|]; reflexivity.
  - intros. apply get_load_bluff_entry.
  - exact Hnd.
Qed.

Lemma load_state_profiles (e : Engine) (st : PState) (opp_id : string) :
  NoDup (Dict.keys (p_profiles st)) ->
  Dict.get opp_id (profiles (load_state e st)) =
  match Dict.get opp_id (p_profiles st) with
  | Some data => Some (load_profile data)
  | None => Dict.get opp_id (profiles e)
  end.
Proof.
  intros Hnd. unfold load_state.
  set (e1 := match p_bandit st with
             | Some (A', b') => set_bandit e (mkLinUCB (lin_d (bandit e)) (lin_alpha (bandit e)) A' (col b'))
             | None => e end).
  assert (Hp : profiles e1 = profiles e) by (subst e1; destruct (p_bandit st) as [[? ?]|]; reflexivity).
  rewrite <- Hp. clearbody e1. clear Hp.
  revert e1. induction (p_profiles st) as [|[k1 d1] t IH]; intros e1; simpl.
  - reflexivity.
  - inversion Hnd as [|? ? Hnin Hnd']; subst. rewrite (IH Hnd'). simpl.
    rewrite get_set. destruct (String.eqb opp_id k1) eqn:E.
    + apply String.eqb_eq in E; subst k1.
      assert (Dict.get opp_id t = None) as -> by (apply get_In_keys; exact Hnin). reflexivity.
    + destruct (Dict.get opp_id t); reflexivity.
Qed.

Lemma get_map_values {V W} (g : V -> W) (k : string) (d : list (string * V)) :
  Dict.get k (map (fun '(k', v) => (k', g v)) d) = option_map g (Dict.get k d).
Proof.
  induction d as [|[k0 v0] t IH]; simpl; [reflexivity|].
  destruct (String.eqb k k0); [reflexivity | exact IH].
Qed.

Lemma get_In {V} (k : string) (v : V) (d : list (string * V)) :
  Dict.get k d = Some v -> In (k, v) d.
Proof.
  induction d as [|[k0 v0] t IH]; simpl; [discriminate|].
  destruct (String.eqb k k0) eqn:E.
  - apply String.eqb_eq in E; subst. intros [= ->]. left; reflexivity.
  - intros H; right; exact (IH H).
Qed.

Lemma flatten_col (x : Vec) : flatten (col x) = x.
Proof. induction x as [|a t IH]; simpl; [reflexivity | now rewrite IH]. Qed.

Lemma fold_set_profiles_bandit (l : list (string * PProfile)) (e1 : Engine) :
  bandit (fold_left (fun e '(opp_id, data) =>
            set_profiles e (Dict.set opp_id (load_profile data) (profiles e))) l e1) = bandit e1.
Proof.
  revert e1. induction l as [|[k1 d1] t IH]; intros e1; simpl; [reflexivity|].
  rewrite IH. reflexivity.
Qed.

Lemma load_state_bandit (e : Engine) (st : PState) (A' : Mat) (b' : Vec) :
  p_bandit st = Some (A', b') ->
  bandit (load_state e st) = mkLinUCB (lin_d (bandit e)) (lin_alpha (bandit e)) A' (col b').
Proof.
  intros Hb. unfold load_state. rewrite Hb, fold_set_profiles_bandit. reflexivity.
Qed.

(** C1 (amended). *)
(** [load_state] rebuilds each listed profile from [OpponentProfile()],
    so its bluff-rate mapping holds the loaded pair of every category the
    state lists, and the default prior of each of the three default
    categories (mexican (1,3), double (1,2), normal (1,1)) the state
    omits; no other category is present. *)
Theorem load_state_bluff_categories (e : Engine) (st : PState) (opp_id : string) (data : PProfile) :
  NoDup (Dict.keys (p_profiles st)) ->
  NoDup (Dict.keys (p_bluff_rate data)) ->
  Dict.get opp_id (p_profiles st) = Some data ->
  exists p, Dict.get opp_id (profiles (load_state e st)) = Some p /\
    forall k, Dict.get k (bluff_rate p) =
      match Dict.get k (p_bluff_rate data) with
      | Some (a, b') => Some (mkBeta a b')
      | None => Dict.get k default_bluff_rate
      end.
Proof.
  intros Hnd Hnd2 Hget. exists (load_profile data). split.
  - rewrite load_state_profiles by exact Hnd. rewrite Hget. reflexivity.
  - intros k. apply load_profile_bluff. exact Hnd2.
Qed.

(** C1: counterexample. *)
(** Loading a profile whose bluff-rate mapping lists only "double"
    yields a profile that also holds "mexican", with its default prior. *)
Lemma load_state_adds_default_category :
  Dict.get "mexican"%string (p_bluff_rate (mkPProfile [("double"%string, (2, 10))] (1, 2) (1, 1))) = None /\
  exists p, Dict.get "p"%string (profiles (load_state Engine_init st_only_double)) = Some p /\
            Dict.get "mexican"%string (bluff_rate p) = Some (mkBeta 1 3).
Proof.
  split; [reflexivity|]. eexists. split; vm_compute; reflexivity.
Qed.

(** C1: witness. *)
Lemma load_state_bluff_categories_witness :
  exists p, Dict.get "p"%string (profiles (load_state Engine_init st_only_double)) = Some p /\
    forall k, Dict.get k (bluff_rate p) =
      match Dict.get k [("double", (2, 10))]%string with
      | Some (a, b') => Some (mkBeta a b')
      | None => Dict.get k default_bluff_rate
      end.
Proof.
  apply (load_state_bluff_categories Engine_init st_only_double "p"%string
           (mkPProfile [("double"%string, (2, 10))] (1, 2) (1, 1))).
  - repeat constructor; simpl; tauto.
  - repeat constructor; simpl; tauto.
  - reflexivity.
Defined.

(** C2 (amended). *)
(** Saving right after loading a state with a bandit entry gives back its
    [A] and [b], and for each loaded opponent its call-rate and
    small-raise pairs and the pair of every listed bluff category; the
    default categories the state omits come back with default priors. *)
Theorem state_load_state (e : Engine) (st : PState) (A' : Mat) (b' : Vec) :
  p_bandit st = Some (A', b') ->
  NoDup (Dict.keys (p_profiles st)) ->
  Forall (fun kd => NoDup (Dict.keys (p_bluff_rate (snd kd)))) (p_profiles st) ->
  p_bandit (state (load_state e st)) = Some (A', b') /\
  forall opp_id data, Dict.get opp_id (p_profiles st) = Some data ->
    exists pd, Dict.get opp_id (p_profiles (state (load_state e st))) = Some pd /\
      p_call_rate pd = p_call_rate data /\
      p_small_raise_pref pd = p_small_raise_pref data /\
      forall k, Dict.get k (p_bluff_rate pd) =
        match Dict.get k (p_bluff_rate data) with
        | Some ab => Some ab
        | None => option_map pair_of (Dict.get k default_bluff_rate)
        end.
Proof.
  intros Hb Hnd Hall. split.
  - simpl. rewrite (load_state_bandit e st A' b' Hb). simpl. rewrite flatten_col. reflexivity.
  - intros opp_id data Hget.
    assert (Hnd2 : NoDup (Dict.keys (p_bluff_rate data))).
    { apply get_In in Hget. rewrite Forall_forall in Hall. exact (Hall _ Hget). }
    exists (profile_state (load_profile data)). split; [|split; [|split]].
    + unfold state. simpl.
      rewrite (get_map_values profile_state), load_state_profiles by exact Hnd.
      rewrite Hget. reflexivity.
    + unfold load_profile. destruct (p_call_rate data), (p_small_raise_pref data). reflexivity.
    + unfold load_profile. destruct (p_call_rate data), (p_small_raise_pref data). reflexivity.
    + intros k. unfold profile_state. simpl.
      rewrite (get_map_values pair_of), load_profile_bluff by exact Hnd2.
      destruct (Dict.get k (p_bluff_rate data)) as [[a b1]|]; reflexivity.
Qed.

(** C2: counterexample. *)
(** A state whose only profile has an empty bluff-rate mapping is not
    reproduced by loading and saving it: three categories come back. *)
Lemma state_load_state_not_identity :
  state (load_state Engine_init st_empty_bluff) <> st_empty_bluff.
Proof.
  intros H.
  apply (f_equal (fun s => List.length (flat_map (fun kd => p_bluff_rate (snd kd)) (p_profiles s)))) in H.
  vm_compute in H. discriminate.
Qed.

(** C2: witness. *)
Lemma state_load_state_witness :
  p_bandit st_loaded = Some (A_loaded, b_loaded) /\
  NoDup (Dict.keys (p_profiles st_loaded)) /\
  Forall (fun kd => NoDup (Dict.keys (p_bluff_rate (snd kd)))) (p_profiles st_loaded) /\
  p_bandit (state (load_state Engine_init st_loaded)) = Some (A_loaded, b_loaded) /\
  exists pd, Dict.get "p"%string (p_profiles (state (load_state Engine_init st_loaded))) = Some pd /\
    p_call_rate pd = (5, 7) /\ p_small_raise_pref pd = (2, 3) /\
    Dict.get "double"%string (p_bluff_rate pd) = Some (2, 10) /\
    Dict.get "special"%string (p_bluff_rate pd) = Some (3, 4) /\
    Dict.get "mexican"%string (p_bluff_rate pd) = Some (1, 3) /\
    Dict.get "normal"%string (p_bluff_rate pd) = Some (1, 1).
Proof.
  assert (Hb : p_bandit st_loaded = Some (A_loaded, b_loaded)) by reflexivity.
  assert (Hnd : NoDup (Dict.keys (p_profiles st_loaded))) by (repeat constructor; simpl; tauto).
  assert (Hall : Forall (fun kd => NoDup (Dict.keys (p_bluff_rate (snd kd)))) (p_profiles st_loaded)).
  { repeat constructor; simpl; intuition discriminate. }
  destruct (state_load_state Engine_init st_loaded A_loaded b_loaded Hb Hnd Hall) as [H1 H2].
  split; [exact Hb|]. split; [exact Hnd|]. split; [exact Hall|]. split; [exact H1|].
  destruct (H2 "p"%string (mkPProfile [("double", (2, 10)); ("special", (3, 4))] (5, 7) (2, 3))%string
              eq_refl) as [pd [Hg [Hc [Hs Hk]]]].
  exists pd. split; [exact Hg|]. split; [exact Hc|]. split; [exact Hs|].
  rewrite !Hk. split; [reflexivity|]. split; [reflexivity|]. split; reflexivity.
Defined.

(** ** The opening move *)

(** C3 (amended). *)
(** With no current claim and a truthful opening categorized "normal",
    [decide_action] raises with [next_higher_claim] applied once or twice
    (by the [random.choice] draw) to the fixed baseline (3, 2), whatever
    the roll, and clears the pending context. *)
Theorem decide_action_opening_weak
    (compare_claims : Claim -> Claim -> Z) (next_higher_claim : Claim -> Claim)
    (categorize_claim : Claim -> string) (ucb_score : LinUCB -> Vec -> Q)
    (e : Engine) (opponent_id : string) (my_roll : Roll) (round_index : Z) (rs : list Q) :
  is_weak_truth categorize_claim (canonical_claim_from_roll my_roll) = true ->
  decide_action compare_claims next_higher_claim categorize_claim ucb_score
    e opponent_id None my_roll round_index rs =
  (Raise (steps_up next_higher_claim (choice_112 (fst (rnd rs))) (3, 2)%Z),
   set_last e None, snd (rnd rs)) /\
  (choice_112 (fst (rnd rs)) = 1%nat \/ choice_112 (fst (rnd rs)) = 2%nat).
Proof.
  intros Hweak. split.
  - simpl. rewrite Hweak. unfold pressure_jump_above. destruct (rnd rs); reflexivity.
  - unfold choice_112. destruct (qlt _ (1 # 3)); [left; reflexivity|].
    destruct (qlt _ (2 # 3)); [left | right]; reflexivity.
Qed.

(** C3: counterexample. *)
(** Under the default grammar the opening for the roll (4, 2) with the
    draw [0] (one step) is (4, 1), below the truthful claim (4, 2). *)
Lemma decide_action_opening_not_above :
  ~ (forall rs, exists c,
       fst (fst (decide_action mx_compare mx_next mx_category flat_score
                  Engine_init "p"%string None (4, 2)%Z 0 rs)) = Raise c /\
       (mx_compare c (4, 2) > 0)%Z).
Proof.
  intros H. destruct (H []) as [c [Hc Hgt]].
  vm_compute in Hc. injection Hc as <-. vm_compute in Hgt. discriminate.
Qed.

(** C3: witness. *)
Lemma decide_action_opening_weak_witness :
  is_weak_truth mx_category (canonical_claim_from_roll (4, 2)%Z) = true /\
  decide_action mx_compare mx_next mx_category flat_score Engine_init "p"%string None (4, 2)%Z 0 [] =
  (Raise (steps_up mx_next (choice_112 0) (3, 2)%Z), set_last Engine_init None, []).
Proof.
  split; [reflexivity|].
  exact (proj1 (decide_action_opening_weak mx_compare mx_next mx_category flat_score
                  Engine_init "p"%string (4, 2)%Z 0 [] eq_refl)).
Defined.

(** ** State effects of [decide_action] *)

Section DecideEffects.

Variable compare_claims : Claim -> Claim -> Z.
Variable next_higher_claim : Claim -> Claim.
Variable categorize_claim : Claim -> string.
Variable ucb_score : LinUCB -> Vec -> Q.

Abbreviation decide := (decide_action compare_claims next_higher_claim categorize_claim ucb_score).
Abbreviation bandit_path := (decide_bandit compare_claims next_higher_claim categorize_claim ucb_score).
Abbreviation ctxs := (contexts compare_claims next_higher_claim categorize_claim).

Lemma raise_branch_shape (e : Engine) (opp_id : string) (cur : Claim) (opp : OpponentProfile)
    (truthful : option Claim) (ctx_raise : Vec) (rs : list Q) :
  (exists c, fst (fst (raise_branch next_higher_claim e opp_id cur opp truthful ctx_raise rs)) = Raise c) /\
  snd (fst (raise_branch next_higher_claim e opp_id cur opp truthful ctx_raise rs)) =
  set_last e (Some (opp_id, "RAISE"%string, ctx_raise)).
Proof.
  unfold raise_branch.
  destruct truthful as [t|].
  - destruct (rnd rs) as [r rs']. destruct (qlt r _).
    + split; [eexists|]; reflexivity.
    + destruct (pick_pressure_claim next_higher_claim cur true opp rs').
      split; [eexists|]; reflexivity.
  - destruct (pick_pressure_claim next_higher_claim cur true opp rs).
    split; [eexists|]; reflexivity.
Qed.

Lemma decide_bandit_effect (e : Engine) (opp_id : string) (cur : Claim) (my_roll : Roll)
    (round_index : Z) (truthful : option Claim) (rs : list Q) :
  let opp := fst (profile_get opp_id (profiles e)) in
  let ps := snd (profile_get opp_id (profiles e)) in
  let cs := ctxs opp cur my_roll round_index truthful in
  snd (fst (bandit_path e opp_id cur my_roll round_index truthful rs)) =
    set_last (set_profiles e ps) (Some (opp_id, "CALL"%string, fst cs)) \/
  snd (fst (bandit_path e opp_id cur my_roll round_index truthful rs)) =
    set_last (set_profiles e ps) (Some (opp_id, "RAISE"%string, snd cs)).
Proof.
  unfold decide_bandit. cbv zeta.
  destruct (profile_get opp_id (profiles e)) as [opp ps]. simpl fst; simpl snd.
  destruct (ctxs opp cur my_roll round_index truthful) as [cc cr]. simpl fst; simpl snd.
  destruct (String.eqb _ "CALL").
  - destruct (rnd rs) as [s rs']. destruct (Qle_bool _ _).
    + left; reflexivity.
    + right. apply raise_branch_shape.
  - right. apply raise_branch_shape.
Qed.

Lemma decide_action_some_effect (e : Engine) (opp_id : string) (cur : Claim) (my_roll : Roll)
    (round_index : Z) (rs : list Q) :
  let e' := snd (fst (decide e opp_id (Some cur) my_roll round_index rs)) in
  let opp := fst (profile_get opp_id (profiles e)) in
  let ps := snd (profile_get opp_id (profiles e)) in
  let cs := ctxs opp cur my_roll round_index (best_truthful_above compare_claims cur my_roll) in
  e' = set_last e None \/
  e' = set_last (set_profiles e ps) (Some (opp_id, "CALL"%string, fst cs)) \/
  e' = set_last (set_profiles e ps) (Some (opp_id, "RAISE"%string, snd cs)).
Proof.
  cbv zeta. simpl decide_action.
  destruct (best_truthful_above compare_claims cur my_roll) as [t|] eqn:Ht.
  - destruct (rnd rs) as [r rs']. destruct (qlt r _).
    + left; reflexivity.
    + right. rewrite <- Ht. apply decide_bandit_effect.
  - right. rewrite <- Ht. apply decide_bandit_effect.
Qed.

Lemma profile_get_present (opp_id : string) (ps : list (string * OpponentProfile)) (p : OpponentProfile) :
  Dict.get opp_id ps = Some p -> profile_get opp_id ps = (p, ps).
Proof. intros H. unfold profile_get, Dict.setdefault. rewrite H. reflexivity. Qed.

Lemma profile_get_absent (opp_id : string) (ps : list (string * OpponentProfile)) :
  Dict.get opp_id ps = None ->
  profile_get opp_id ps = (OpponentProfile_default, ps ++ [(opp_id, OpponentProfile_default)]).
Proof. intros H. unfold profile_get, Dict.setdefault. rewrite H. reflexivity. Qed.

(** C10. *)
(** For a current claim, [decide_action] leaves the bandit, the knobs and
    every existing profile as they were: its only effects are the pending
    context and, for an unseen opponent, a fresh default profile
    appended to the profile map. *)
Theorem decide_action_frame (e : Engine) (opp_id : string) (cur : Claim) (my_roll : Roll)
    (round_index : Z) (rs : list Q) :
  exists ps' c,
    (ps' = profiles e \/
     (Dict.get opp_id (profiles e) = None /\
      ps' = profiles e ++ [(opp_id, OpponentProfile_default)])) /\
    snd (fst (decide e opp_id (Some cur) my_roll round_index rs)) =
    mkEngine ps' (bandit e) (call_risk_bias e) (raise_bluff_cap e) (truth_bias e) c.
Proof.
  assert (Hps : snd (profile_get opp_id (profiles e)) = profiles e \/
                (Dict.get opp_id (profiles e) = None /\
                 snd (profile_get opp_id (profiles e)) =
                 profiles e ++ [(opp_id, OpponentProfile_default)])).
  { destruct (Dict.get opp_id (profiles e)) as [p|] eqn:Hg.
    - left. rewrite (profile_get_present _ _ _ Hg). reflexivity.
    - right. split; [reflexivity|]. rewrite (profile_get_absent _ _ Hg). reflexivity. }
  destruct (decide_action_some_effect e opp_id cur my_roll round_index rs) as [H|[H|H]];
    rewrite H.
  - exists (profiles e), None. split; [left; reflexivity | reflexivity].
  - eexists _, _. split; [exact Hps | reflexivity].
  - eexists _, _. split; [exact Hps | reflexivity].
Qed.

(** C6. *)
(** When the bandit picks "CALL", [decide_action] (from line 109 on)
    challenges iff the Thompson sample [s] gives
    [2 s - 1 - call_risk_bias >= -0.15]; then it records
    [(opponent_id, "CALL", ctx_call)], and otherwise it runs the raise
    branch on the remaining draws. *)
Theorem decide_bandit_challenge_gate (e : Engine) (opp_id : string) (cur : Claim)
    (my_roll : Roll) (round_index : Z) (truthful : option Claim) (rs : list Q) :
  let opp := fst (profile_get opp_id (profiles e)) in
  let ps := snd (profile_get opp_id (profiles e)) in
  let cs := ctxs opp cur my_roll round_index truthful in
  let s := fst (rnd rs) in
  let res := bandit_path e opp_id cur my_roll round_index truthful rs in
  choose ucb_score (bandit e) (fst cs) (snd cs) = "CALL"%string ->
  (fst (fst res) = CallBluff <-> - (15 # 100) <= (2 * s - 1) - call_risk_bias e) /\
  (- (15 # 100) <= (2 * s - 1) - call_risk_bias e ->
   snd (fst res) = set_last (set_profiles e ps) (Some (opp_id, "CALL"%string, fst cs))) /\
  (~ - (15 # 100) <= (2 * s - 1) - call_risk_bias e ->
   res = raise_branch next_higher_claim (set_profiles e ps) opp_id cur opp truthful
           (snd cs) (snd (rnd rs))).
Proof.
  cbv zeta. intros Hch. unfold decide_bandit.
  destruct (profile_get opp_id (profiles e)) as [opp ps]. cbn [fst snd] in *.
  destruct (ctxs opp cur my_roll round_index truthful) as [cc cr]. cbn [fst snd] in *.
  change (bandit (set_profiles e ps)) with (bandit e). rewrite Hch, String.eqb_refl.
  destruct (rnd rs) as [s rs']. cbn [fst snd].
  change (call_risk_bias (set_profiles e ps)) with (call_risk_bias e).
  destruct (Qle_bool (- (15 # 100)) (2 * s - 1 - call_risk_bias e)) eqn:Hq.
  - apply Qle_bool_iff in Hq. split; [split; [intros _; exact Hq | reflexivity]|].
    split; [intros _; reflexivity | intros Hn; contradiction].
  - assert (Hn : ~ - (15 # 100) <= 2 * s - 1 - call_risk_bias e)
      by (intros Hle; apply Qle_bool_iff in Hle; congruence).
    destruct (raise_branch_shape (set_profiles e ps) opp_id cur opp truthful cr rs') as [[c Hc] _].
    split; [split; [rewrite Hc; discriminate | intros Hle; contradiction]|].
    split; [intros Hle; contradiction | intros _; reflexivity].
Qed.

(** C4 (amended). *)
(** An absent category never raises: [observe_showdown] inserts a (1,1)
    tracker for it and updates it; [decide_action] reads it through a
    (1,1) fallback (mean 1/2 in the context vector) without inserting it,
    so an existing profile is left as it was. *)
Theorem unknown_category_lookup (claim_matches_roll : Claim -> Roll -> bool) :
  (forall e opp_id claim roll caller_is_cpu p,
     Dict.get opp_id (profiles e) = Some p ->
     Dict.get (categorize_claim claim) (bluff_rate p) = None ->
     exists p', Dict.get opp_id (profiles (observe_showdown categorize_claim claim_matches_roll
                                            e opp_id claim roll caller_is_cpu)) = Some p' /\
       Dict.get (categorize_claim claim) (bluff_rate p') =
       Some (update (mkBeta 1 1) (negb (claim_matches_roll claim roll)))) /\
  (forall e opp_id cur my_roll round_index rs p,
     Dict.get opp_id (profiles e) = Some p ->
     Dict.get (categorize_claim cur) (bluff_rate p) = None ->
     let e' := snd (fst (decide e opp_id (Some cur) my_roll round_index rs)) in
     Dict.get opp_id (profiles e') = Some p /\
     match last_context e' with Some (_, _, ctx) => nth 3 ctx 0 == 1 # 2 | None => True end).
Proof.
  split.
  - intros e opp_id claim roll caller p Hp Hcat. unfold observe_showdown.
    rewrite (profile_get_present _ _ _ Hp).
    unfold Dict.setdefault. rewrite Hcat.
    eexists. simpl. rewrite get_set, String.eqb_refl. split; [reflexivity|].
    simpl. rewrite get_set, String.eqb_refl. reflexivity.
  - intros e opp_id cur my_roll round_index rs p Hp Hcat. cbv zeta.
    assert (Hpg := profile_get_present _ _ _ Hp).
    assert (Hm : mean (Dict.get_default (categorize_claim cur) (mkBeta 1 1) (bluff_rate p)) == 1 # 2)
      by (unfold Dict.get_default; rewrite Hcat; reflexivity).
    destruct (decide_action_some_effect e opp_id cur my_roll round_index rs) as [H|[H|H]];
      rewrite H.
    + split; [exact Hp | exact I].
    + rewrite Hpg. simpl. split; [exact Hp | exact Hm].
    + rewrite Hpg. simpl. split; [exact Hp | exact Hm].
Qed.

End DecideEffects.

(** C4: counterexample. *)
(** Deciding against the claim (4, 1) of category "special" reads the
    absent category but does not create it in the profile. *)
Lemma decide_action_does_not_store_category :
  Dict.get "special"%string (bluff_rate OpponentProfile_default) = None /\
  exists p, Dict.get "p"%string
              (profiles (snd (fst (decide_action mx_compare mx_next sp_category flat_score
                                     engine_with_p "p"%string (Some (4, 1)%Z) (3, 1)%Z 0 [1])))) = Some p /\
            Dict.get "special"%string (bluff_rate p) = None.
Proof.
  split; [reflexivity|]. eexists. split; vm_compute; reflexivity.
Qed.

(** C4: witness. *)
Lemma unknown_category_lookup_witness :
  Dict.get "p"%string (profiles engine_with_p) = Some OpponentProfile_default /\
  Dict.get (sp_category (4, 1)%Z) (bluff_rate OpponentProfile_default) = None /\
  Dict.get "p"%string
    (profiles (snd (fst (decide_action mx_compare mx_next sp_category flat_score
                           engine_with_p "p"%string (Some (4, 1)%Z) (3, 1)%Z 0 [1])))) =
  Some OpponentProfile_default.
Proof.
  split; [reflexivity|]. split; [reflexivity|].
  exact (proj1 (proj2 (unknown_category_lookup mx_compare mx_next sp_category flat_score mx_matches)
                  engine_with_p "p"%string (4, 1)%Z (3, 1)%Z 0%Z [1] OpponentProfile_default
                  eq_refl eq_refl)).
Defined.

(** C6: witness. *)
Lemma decide_bandit_challenge_gate_witness :
  choose flat_score (bandit Engine_init) [0; 0; 1; 1 # 2; 1 # 3; 0; 0; 0; 0]
                                         [0; 0; 1; 1 # 2; 1 # 3; 0; 0; 0; 1] = "CALL"%string /\
  fst (fst (decide_bandit mx_compare mx_next mx_category flat_score
              Engine_init "p"%string (4, 1)%Z (3, 1)%Z 0 None [1])) = CallBluff.
Proof.
  split; [reflexivity|].
  apply (proj1 (decide_bandit_challenge_gate mx_compare mx_next mx_category flat_score
                  Engine_init "p"%string (4, 1)%Z (3, 1)%Z 0 None [1] eq_refl)).
  vm_compute. discriminate.
Defined.

(** ** Round outcomes *)

(** C5. *)
(** [observe_round_outcome] is the identity when no context is pending;
    otherwise it feeds the bandit the pending vector with reward +1 (won)
    or -1 (lost); either way the pending slot is empty afterwards. *)
Theorem observe_round_outcome_spec (e : Engine) (did_cpu_win_round : bool) :
  (last_context e = None -> observe_round_outcome e did_cpu_win_round = e) /\
  (forall opp_id act ctx, last_context e = Some (opp_id, act, ctx) ->
     observe_round_outcome e did_cpu_win_round =
     set_last (set_bandit e (lin_update (bandit e) ctx (if did_cpu_win_round then 1 else -1))) None) /\
  last_context (observe_round_outcome e did_cpu_win_round) = None.
Proof.
  unfold observe_round_outcome. split; [|split].
  - intros H. rewrite H. reflexivity.
  - intros o a ctx H. rewrite H. reflexivity.
  - destruct (last_context e) as [[[o a] ctx]|] eqn:H; [reflexivity | exact H].
Qed.

(** C5: witness. *)
Lemma observe_round_outcome_spec_witness :
  last_context engine_pending = Some ("p"%string, "RAISE"%string, repeat 1 9) /\
  observe_round_outcome engine_pending true =
  set_last (set_bandit engine_pending (lin_update (bandit engine_pending) (repeat 1 9) 1)) None.
Proof.
  split; [reflexivity|].
  exact (proj1 (proj2 (observe_round_outcome_spec engine_pending true))
           "p"%string "RAISE"%string (repeat 1 9) eq_refl).
Defined.

(** ** The pressure claim *)

Lemma qlt_true (x y : Q) : qlt x y = true <-> x < y.
Proof.
  unfold qlt. rewrite negb_true_iff. split.
  - intros H. apply Qnot_le_lt. intros Hle. apply Qle_bool_iff in Hle. congruence.
  - intros H. destruct (Qle_bool y x) eqn:E; [|reflexivity].
    apply Qle_bool_iff in E. exfalso. apply (Qlt_not_le x y H E).
Qed.

Lemma qlt_false (x y : Q) : qlt x y = false <-> y <= x.
Proof.
  unfold qlt. rewrite negb_false_iff. apply Qle_bool_iff.
Qed.

(** C7. *)
(** [_pick_pressure_claim] takes [1 + extra] next-higher steps from the
    current claim, [extra] decided by one draw [r]: a second step iff the
    call-rate mean exceeds 0.55 and [r < 0.5], a third iff it exceeds
    0.65 and [r < 0.25]. Above 0.65 the step count is 3 for [r] in
    [\[0, 0.25)], 2 for [r] in [\[0.25, 0.5)] and 1 for [r >= 0.5]. *)
Theorem pick_pressure_claim_steps (next_higher_claim : Claim -> Claim)
    (current_claim : Claim) (opp : OpponentProfile) (rs : list Q) :
  let p := mean (call_rate opp) in
  let r := fst (rnd rs) in
  let n := pressure_steps p r true in
  pick_pressure_claim next_higher_claim current_claim true opp rs =
    (steps_up next_higher_claim n current_claim, snd (rnd rs)) /\
  (1 <= n)%nat /\
  ((2 <= n)%nat <-> 55 # 100 < p /\ r < 1 # 2) /\
  ((3 <= n)%nat <-> 65 # 100 < p /\ r < 1 # 4) /\
  (65 # 100 < p ->
     (r < 1 # 4 -> n = 3%nat) /\
     (1 # 4 <= r -> r < 1 # 2 -> n = 2%nat) /\
     (1 # 2 <= r -> n = 1%nat)).
Proof.
  cbv zeta. split.
  - unfold pick_pressure_claim. destruct (rnd rs); reflexivity.
  - set (p := mean (call_rate opp)). set (r := fst (rnd rs)).
    unfold pressure_steps.
    destruct (qlt (55 # 100) p) eqn:E1; destruct (qlt r (1 # 2)) eqn:E2;
    destruct (qlt (65 # 100) p) eqn:E3; destruct (qlt r (1 # 4)) eqn:E4;
    repeat match goal with
           | H : qlt _ _ = true |- _ => apply qlt_true in H
           | H : qlt _ _ = false |- _ => apply qlt_false in H
           end; simpl;
    repeat split; intros;
    repeat match goal with H : _ /\ _ |- _ => destruct H end;
    first [lia | lra | exfalso; lra].
Qed.

(** C7: witness. *)
Lemma pick_pressure_claim_steps_witness :
  65 # 100 < mean (call_rate (mkProfile [] (mkBeta 2 1) (mkBeta 1 1))) /\
  pressure_steps (mean (call_rate (mkProfile [] (mkBeta 2 1) (mkBeta 1 1)))) (1 # 10) true = 3%nat.
Proof.
  assert (Hp : 65 # 100 < mean (call_rate (mkProfile [] (mkBeta 2 1) (mkBeta 1 1))))
    by (vm_compute; reflexivity).
  split; [exact Hp|].
  destruct (pick_pressure_claim_steps mx_next (3, 2)%Z (mkProfile [] (mkBeta 2 1) (mkBeta 1 1)) [1 # 10])
    as [_ [_ [_ [_ H]]]].
  apply (proj1 (H Hp)). vm_compute. reflexivity.
Defined.

(** ** [BetaTracker] *)

Lemma updates_counts (t : BetaTracker) (l : list bool) :
  alpha (updates t l) == alpha t + qcount true l /\
  beta (updates t l) == beta t + qcount false l.
Proof.
  revert t. induction l as [|x l IH]; intros t; simpl.
  - split; ring.
  - unfold updates in *. simpl. destruct (IH (update t x)) as [Ha Hb].
    rewrite Ha, Hb. destruct x; simpl; split; ring.
Qed.

Lemma qcount_nonneg (x : bool) (l : list bool) : 0 <= qcount x l.
Proof.
  induction l as [|y l IH]; simpl; [lra|]. destruct (Bool.eqb x y); lra.
Qed.

Lemma updates_app (t : BetaTracker) (l1 l2 : list bool) :
  updates t (l1 ++ l2) = updates (updates t l1) l2.
Proof. unfold updates. apply fold_left_app. Qed.

Lemma qdiv_le (a b c d : Q) : 0 < b -> 0 < d -> a * d <= c * b -> a / b <= c / d.
Proof.
  intros Hb Hd H. apply Qle_shift_div_l; [exact Hd|].
  setoid_replace (a / b * d) with ((a * d) / b) by (field; lra).
  apply Qle_shift_div_r; [exact Hb|]. lra.
Qed.

Lemma mean_update_true (t : BetaTracker) :
  0 < alpha t -> 0 < beta t -> mean t <= mean (update t true).
Proof.
  intros Ha Hb. unfold mean, update. simpl. apply qdiv_le; [lra | lra | nra].
Qed.

Lemma mean_update_false (t : BetaTracker) :
  0 < alpha t -> 0 < beta t -> mean (update t false) <= mean t.
Proof.
  intros Ha Hb. unfold mean, update. simpl. apply qdiv_le; [lra | lra | nra].
Qed.

(** C8. *)
(** From positive counters, after any run of updates [mean()] is
    [alpha / (alpha + beta)] with [alpha] and [beta] the priors plus the
    counts of true and false outcomes; a true outcome in place of a false
    one never lowers [mean()]; an [update(true)] never lowers it and an
    [update(false)] never raises it. *)
Theorem beta_tracker_mean (t : BetaTracker) :
  0 < alpha t -> 0 < beta t ->
  (forall l, mean (updates t l) = alpha (updates t l) / (alpha (updates t l) + beta (updates t l)) /\
             alpha (updates t l) == alpha t + qcount true l /\
             beta (updates t l) == beta t + qcount false l) /\
  (forall l1 l2, mean (updates t (l1 ++ false :: l2)) <= mean (updates t (l1 ++ true :: l2))) /\
  (forall l, mean (updates t l) <= mean (update (updates t l) true) /\
             mean (update (updates t l) false) <= mean (updates t l)).
Proof.
  intros Ha Hb.
  assert (Hpos : forall l, 0 < alpha (updates t l) /\ 0 < beta (updates t l)).
  { intros l. destruct (updates_counts t l) as [H1 H2].
    pose proof (qcount_nonneg true l). pose proof (qcount_nonneg false l).
    rewrite H1, H2. split; lra. }
  split; [|split].
  - intros l. split; [reflexivity | apply updates_counts].
  - intros l1 l2. rewrite !updates_app.
    destruct (Hpos l1) as [Ha1 Hb1]. set (t1 := updates t l1) in *.
    change (false :: l2) with ([false] ++ l2). change (true :: l2) with ([true] ++ l2).
    rewrite !updates_app.
    destruct (updates_counts (updates t1 [false]) l2) as [Hf1 Hf2].
    destruct (updates_counts (updates t1 [true]) l2) as [Ht1 Ht2].
    unfold mean. rewrite Hf1, Hf2, Ht1, Ht2. simpl.
    pose proof (qcount_nonneg true l2). pose proof (qcount_nonneg false l2).
    apply qdiv_le; [lra | lra | nra].
  - intros l. destruct (Hpos l) as [Ha1 Hb1].
    split; [apply mean_update_true | apply mean_update_false]; assumption.
Qed.

(** C8: witness. *)
Lemma beta_tracker_mean_witness :
  0 < alpha (mkBeta 1 1) /\ 0 < beta (mkBeta 1 1) /\
  mean (updates (mkBeta 1 1) [false; true]) <= mean (updates (mkBeta 1 1) [true; true]).
Proof.
  assert (H1 : 0 < alpha (mkBeta 1 1)) by (vm_compute; reflexivity).
  assert (H2 : 0 < beta (mkBeta 1 1)) by (vm_compute; reflexivity).
  split; [exact H1|]. split; [exact H2|].
  exact (proj1 (proj2 (beta_tracker_mean (mkBeta 1 1) H1 H2)) [] [true]).
Defined.

(** ** The design matrix of [LinUCB] *)

Section DesignMatrix.

Variable d : nat.

Lemma nth_map_in {T U} (f : T -> U) (l : list T) (i : nat) (dflt : U) (d0 : T) :
  (i < List.length l)%nat -> nth i (map f l) dflt = f (nth i l d0).
Proof.
  intros Hi. rewrite (nth_indep _ dflt (f d0)) by (rewrite length_map; exact Hi).
  apply map_nth.
Qed.

Lemma nth_map_seq {T} (f : nat -> T) (n i : nat) (dflt : T) :
  (i < n)%nat -> nth i (map f (seq 0 n)) dflt = f i.
Proof.
  intros Hi. rewrite (nth_indep _ dflt (f 0%nat)) by (rewrite length_map, length_seq; exact Hi).
  rewrite map_nth, seq_nth by exact Hi. reflexivity.
Qed.

Lemma entry_eye (i j : nat) :
  (i < d)%nat -> (j < d)%nat -> entry (eye d) i j = if Nat.eqb i j then 1 else 0.
Proof.
  intros Hi Hj. unfold entry, eye.
  rewrite nth_map_seq by exact Hi. apply nth_map_seq. exact Hj.
Qed.

Lemma shaped_eye : shaped d (eye d).
Proof.
  unfold shaped, eye. split; [rewrite length_map, length_seq; reflexivity|].
  apply Forall_forall. intros r Hr. apply in_map_iff in Hr as [i [<- _]].
  rewrite length_map, length_seq. reflexivity.
Qed.

Lemma shaped_row (M : Mat) (i : nat) :
  shaped d M -> (i < d)%nat -> List.length (nth i M []) = d.
Proof.
  intros [HL HF] Hi. rewrite Forall_forall in HF. apply HF, nth_In. lia.
Qed.

Lemma entry_mat_add (M N : Mat) (i j : nat) :
  shaped d M -> shaped d N -> (i < d)%nat -> (j < d)%nat ->
  entry (mat_add M N) i j = entry M i j + entry N i j.
Proof.
  intros HM HN Hi Hj. unfold entry, mat_add.
  assert (HlenMN : List.length M = List.length N) by (destruct HM, HN; congruence).
  rewrite (nth_map_in _ _ _ _ ([], [])).
  2:{ rewrite length_combine. destruct HM, HN. lia. }
  rewrite combine_nth by exact HlenMN.
  assert (Hr : List.length (nth i M []) = List.length (nth i N [])).
  { rewrite (shaped_row M i HM Hi), (shaped_row N i HN Hi). reflexivity. }
  rewrite (nth_map_in _ _ _ _ (0, 0)).
  2:{ rewrite length_combine, (shaped_row M i HM Hi), (shaped_row N i HN Hi). lia. }
  rewrite combine_nth by exact Hr. reflexivity.
Qed.

Lemma shaped_mat_add (M N : Mat) : shaped d M -> shaped d N -> shaped d (mat_add M N).
Proof.
  intros HM HN. split.
  - unfold mat_add. rewrite length_map, length_combine. destruct HM, HN. lia.
  - apply Forall_forall. intros r Hr. unfold mat_add in Hr.
    apply in_map_iff in Hr as [[r1 r2] [<- Hin]].
    rewrite length_map, length_combine.
    destruct HM as [_ HM], HN as [_ HN]. rewrite Forall_forall in HM, HN.
    rewrite (HM r1 (in_combine_l _ _ _ _ Hin)), (HN r2 (in_combine_r _ _ _ _ Hin)). lia.
Qed.

Lemma entry_outer (x : Vec) (i j : nat) :
  List.length x = d -> (i < d)%nat -> (j < d)%nat ->
  entry (outer x) i j = nth i x 0 * nth j x 0.
Proof.
  intros Hx Hi Hj. unfold entry, outer.
  rewrite (nth_map_in _ _ _ _ 0) by lia.
  rewrite (nth_map_in _ _ _ _ 0) by lia. reflexivity.
Qed.

Lemma shaped_outer (x : Vec) : List.length x = d -> shaped d (outer x).
Proof.
  intros Hx. unfold shaped, outer. split; [rewrite length_map; exact Hx|].
  apply Forall_forall. intros r Hr. apply in_map_iff in Hr as [xi [<- _]].
  rewrite length_map. exact Hx.
Qed.

End DesignMatrix.

Lemma qsum_ext (f g : nat -> Q) (n : nat) :
  (forall i, (i < n)%nat -> f i == g i) -> qsum f n == qsum g n.
Proof.
  induction n as [|n IH]; intros H; simpl; [reflexivity|].
  rewrite IH by (intros; apply H; lia). rewrite (H n) by lia. reflexivity.
Qed.

Lemma qsum_add (f g : nat -> Q) (n : nat) :
  qsum (fun i => f i + g i) n == qsum f n + qsum g n.
Proof. induction n as [|n IH]; simpl; [ring|]. rewrite IH. ring. Qed.

Lemma qsum_scale (c : Q) (f : nat -> Q) (n : nat) :
  qsum (fun i => c * f i) n == c * qsum f n.
Proof. induction n as [|n IH]; simpl; [ring|]. rewrite IH. ring. Qed.

Lemma qsum_zero (f : nat -> Q) (n : nat) :
  (forall i, (i < n)%nat -> f i == 0) -> qsum f n == 0.
Proof.
  intros H. rewrite (qsum_ext f (fun _ => 0)) by exact H.
  clear H. induction n as [|n IH]; simpl; [reflexivity|]. rewrite IH. reflexivity.
Qed.

Lemma qsum_delta (c : Q) (i n : nat) :
  (i < n)%nat -> qsum (fun j => if Nat.eqb i j then c else 0) n == c.
Proof.
  induction n as [|n IH]; intros Hi; [lia|]. simpl.
  destruct (Nat.eqb i n) eqn:E.
  - apply Nat.eqb_eq in E; subst n.
    rewrite qsum_zero; [ring|]. intros j Hj.
    destruct (Nat.eqb i j) eqn:E2; [apply Nat.eqb_eq in E2; lia | reflexivity].
  - apply Nat.eqb_neq in E. rewrite IH by lia. ring.
Qed.

Lemma qsum_nonneg (f : nat -> Q) (n : nat) :
  (forall i, (i < n)%nat -> 0 <= f i) -> 0 <= qsum f n.
Proof.
  induction n as [|n IH]; intros H; simpl; [lra|].
  pose proof (IH (fun i Hi => H i ltac:(lia))). pose proof (H n ltac:(lia)). lra.
Qed.

Lemma qsum_pos (f : nat -> Q) (n : nat) :
  (forall i, (i < n)%nat -> 0 <= f i) -> (exists i, (i < n)%nat /\ 0 < f i) -> 0 < qsum f n.
Proof.
  induction n as [|n IH]; intros H [i [Hi Hpos]]; [lia|]. simpl.
  pose proof (qsum_nonneg f n (fun k Hk => H k ltac:(lia))).
  pose proof (H n ltac:(lia)).
  destruct (Nat.eq_dec i n) as [->|Hne]; [lra|].
  assert (0 < qsum f n) by (apply IH; [intros k Hk; apply H; lia | exists i; split; [lia | exact Hpos]]).
  lra.
Qed.

Section QuadForm.

Variable d : nat.

Lemma quad_form_mat_add (M N : Mat) (v : Vec) :
  shaped d M -> shaped d N -> List.length v = d ->
  quad_form (mat_add M N) v == quad_form M v + quad_form N v.
Proof.
  intros HM HN Hv. unfold quad_form. rewrite Hv.
  rewrite <- qsum_add. apply qsum_ext. intros i Hi.
  rewrite <- qsum_add. apply qsum_ext. intros j Hj.
  rewrite (entry_mat_add d M N i j HM HN Hi Hj). ring.
Qed.

Lemma quad_form_outer (x v : Vec) :
  List.length x = d -> List.length v = d ->
  quad_form (outer x) v == dot_d d x v * dot_d d x v.
Proof.
  intros Hx Hv. unfold quad_form, dot_d. rewrite Hv.
  rewrite <- qsum_scale. apply qsum_ext. intros i Hi.
  setoid_replace (qsum (fun j => nth i v 0 * entry (outer x) i j * nth j v 0) d)
    with (qsum (fun j => (nth i x 0 * nth i v 0) * (nth j x 0 * nth j v 0)) d).
  - rewrite qsum_scale. ring.
  - apply qsum_ext. intros j Hj. rewrite (entry_outer d x i j Hx Hi Hj). ring.
Qed.

Lemma quad_form_eye (v : Vec) :
  List.length v = d -> quad_form (eye d) v == qsum (fun i => nth i v 0 * nth i v 0) d.
Proof.
  intros Hv. unfold quad_form. rewrite Hv. apply qsum_ext. intros i Hi.
  rewrite (qsum_ext _ (fun j => if Nat.eqb i j then nth i v 0 * nth i v 0 else 0)).
  - apply qsum_delta. exact Hi.
  - intros j Hj. rewrite (entry_eye d i j Hi Hj).
    destruct (Nat.eqb i j) eqn:E; [apply Nat.eqb_eq in E; subst j; ring | ring].
Qed.

Lemma design_inv_eye : design_inv d (eye d).
Proof.
  split; [apply shaped_eye|]. split.
  - intros i j Hi Hj. rewrite (entry_eye d i j Hi Hj), (entry_eye d j i Hj Hi), Nat.eqb_sym.
    reflexivity.
  - intros v Hv. rewrite quad_form_eye by exact Hv. apply Qle_refl.
Qed.

Lemma design_inv_update (M : Mat) (x : Vec) :
  List.length x = d -> design_inv d M -> design_inv d (mat_add M (outer x)).
Proof.
  intros Hx [HM [Hsym Hq]]. pose proof (shaped_outer d x Hx) as HO.
  split; [apply shaped_mat_add; assumption|]. split.
  - intros i j Hi Hj. rewrite !(entry_mat_add d) by assumption.
    rewrite (entry_outer d x i j Hx Hi Hj), (entry_outer d x j i Hx Hj Hi), (Hsym i j Hi Hj).
    ring.
  - intros v Hv. rewrite quad_form_mat_add, quad_form_outer by assumption.
    pose proof (Hq v Hv). nra.
Qed.

Lemma design_inv_train (l : LinUCB) (us : list (Vec * Q)) :
  Forall (fun u => List.length (fst u) = d) us -> design_inv d (A l) -> design_inv d (A (train l us)).
Proof.
  revert l. induction us as [|u us IH]; intros l Hall Hinv; simpl; [exact Hinv|].
  apply Forall_cons_iff in Hall as [Hu Hall'].
  apply IH; [exact Hall'|]. simpl. apply design_inv_update; assumption.
Qed.

End QuadForm.

(** C9. *)
(** From the identity, after any sequence of [update(x, reward)] with
    [d]-dimensional [x], the design matrix [A] is [d x d], symmetric, and
    positive-definite: [v^T A v > 0] for every nonzero [v]. *)
Theorem linucb_design_matrix_spd (d : nat) (a : Q) (us : list (Vec * Q)) :
  Forall (fun u => List.length (fst u) = d) us ->
  let M := A (train (LinUCB_init d a) us) in
  shaped d M /\
  (forall i j, (i < d)%nat -> (j < d)%nat -> entry M i j == entry M j i) /\
  (forall v, List.length v = d -> (exists i, (i < d)%nat /\ ~ nth i v 0 == 0) -> 0 < quad_form M v).
Proof.
  intros Hall. cbv zeta.
  destruct (design_inv_train d (LinUCB_init d a) us Hall (design_inv_eye d)) as [HS [Hsym Hq]].
  split; [exact HS|]. split; [exact Hsym|].
  intros v Hv [i [Hi Hnz]].
  apply Qlt_le_trans with (qsum (fun k => nth k v 0 * nth k v 0) d); [|exact (Hq v Hv)].
  apply qsum_pos.
  - intros k _. nra.
  - exists i. split; [exact Hi|].
    destruct (Q_dec (nth i v 0) 0) as [[H|H]|H]; [nra | nra | contradiction].
Qed.

(** C9: witness. *)
Lemma linucb_design_matrix_spd_witness :
  Forall (fun u => List.length (fst u) = 2%nat) [([1; -1], 1); ([2; 3], -1)] /\
  0 < quad_form (A (train (LinUCB_init 2 (9 # 10)) [([1; -1], 1); ([2; 3], -1)])) [0; 1].
Proof.
  assert (H : Forall (fun u => List.length (fst u) = 2%nat) [([1; -1], 1); ([2; 3], -1)])
    by (repeat constructor).
  split; [exact H|].
  destruct (linucb_design_matrix_spd 2 (9 # 10) _ H) as [_ [_ Hpd]].
  apply Hpd; [reflexivity|]. exists 1%nat. split; [lia|]. vm_compute. discriminate.
Defined.

(** * Further properties of the engine *)

(** ** [decide_action]: actions, pending context and raises *)

Section DecideMore.

Variable compare_claims : Claim -> Claim -> Z.
Variable next_higher_claim : Claim -> Claim.
Variable categorize_claim : Claim -> string.
Variable ucb_score : LinUCB -> Vec -> Q.

Abbreviation decide := (decide_action compare_claims next_higher_claim categorize_claim ucb_score).
Abbreviation bandit_path := (decide_bandit compare_claims next_higher_claim categorize_claim ucb_score).
Abbreviation ctxs := (contexts compare_claims next_higher_claim categorize_claim).

Lemma pressure_steps_pos (p r : Q) (allow_bluff : bool) : (1 <= pressure_steps p r allow_bluff)%nat.
Proof.
  unfold pressure_steps. destruct allow_bluff; [|lia].
  destruct (qlt (65 # 100) p && qlt r (1 # 4)); [lia|].
  destruct (qlt (55 # 100) p && qlt r (1 # 2)); lia.
Qed.

Lemma pick_pressure_claim_eq (cur : Claim) (opp : OpponentProfile) (rs : list Q) :
  pick_pressure_claim next_higher_claim cur true opp rs =
  (steps_up next_higher_claim (pressure_steps (mean (call_rate opp)) (fst (rnd rs)) true) cur,
   snd (rnd rs)).
Proof. unfold pick_pressure_claim. destruct (rnd rs); reflexivity. Qed.

Lemma raise_branch_claim (e : Engine) (opp_id : string) (cur : Claim) (opp : OpponentProfile)
    (truthful : option Claim) (ctx_raise : Vec) (rs : list Q) (c : Claim) :
  fst (fst (raise_branch next_higher_claim e opp_id cur opp truthful ctx_raise rs)) = Raise c ->
  truthful = Some c \/ exists n, (1 <= n)%nat /\ c = steps_up next_higher_claim n cur.
Proof.
  unfold raise_branch.
  destruct truthful as [t|].
  - destruct (rnd rs) as [r rs']. destruct (qlt r _).
    + cbn [fst]. intros H. left. congruence.
    + rewrite pick_pressure_claim_eq. cbn [fst]. intros H. right.
      exists (pressure_steps (mean (call_rate opp)) (fst (rnd rs')) true).
      split; [apply pressure_steps_pos | congruence].
  - rewrite pick_pressure_claim_eq. cbn [fst]. intros H. right.
    exists (pressure_steps (mean (call_rate opp)) (fst (rnd rs)) true).
    split; [apply pressure_steps_pos | congruence].
Qed.

(** What the bandit path returns, with the engine it leaves. *)
Lemma decide_bandit_cases (e : Engine) (opp_id : string) (cur : Claim) (my_roll : Roll)
    (round_index : Z) (truthful : option Claim) (rs : list Q) :
  let opp := fst (profile_get opp_id (profiles e)) in
  let ps := snd (profile_get opp_id (profiles e)) in
  let cs := ctxs opp cur my_roll round_index truthful in
  let res := bandit_path e opp_id cur my_roll round_index truthful rs in
  (fst (fst res) = CallBluff /\
   snd (fst res) = set_last (set_profiles e ps) (Some (opp_id, "CALL"%string, fst cs))) \/
  (exists rs', res = raise_branch next_higher_claim (set_profiles e ps) opp_id cur opp truthful (snd cs) rs').
Proof.
  cbv zeta. unfold decide_bandit.
  destruct (profile_get opp_id (profiles e)) as [opp ps]. cbn [fst snd].
  destruct (ctxs opp cur my_roll round_index truthful) as [cc cr]. cbn [fst snd].
  destruct (String.eqb _ "CALL").
  - destruct (rnd rs) as [s rs']. destruct (Qle_bool _ _).
    + left; split; reflexivity.
    + right; eexists; reflexivity.
  - right; eexists; reflexivity.
Qed.

(** Opening moves: with no current claim [decide_action] always raises,
    clears the pending context and touches nothing else; a truthful
    opening that is not "normal" is raised as is, with no draw used. *)
Theorem decide_action_opening (e : Engine) (opp_id : string) (my_roll : Roll)
    (round_index : Z) (rs : list Q) :
  exists c rs', decide e opp_id None my_roll round_index rs = (Raise c, set_last e None, rs') /\
    (is_weak_truth categorize_claim (canonical_claim_from_roll my_roll) = false ->
     c = canonical_claim_from_roll my_roll /\ rs' = rs).
Proof.
  simpl. destruct (is_weak_truth categorize_claim (canonical_claim_from_roll my_roll)) eqn:Hw.
  - unfold pressure_jump_above. destruct (rnd rs) as [u rs'].
    eexists _, _. split; [reflexivity | discriminate].
  - eexists _, _. split; [reflexivity | intros _; split; reflexivity].
Qed.

(** The truthful fast path: when a truthful claim above the current one
    exists and the first draw is below [0.65 + truth_bias], the engine
    raises it, clears the pending context, and creates no profile. *)
Theorem decide_action_truthful_fast_path (e : Engine) (opp_id : string) (cur : Claim)
    (my_roll : Roll) (round_index : Z) (r : Q) (rs : list Q) (t : Claim) :
  best_truthful_above compare_claims cur my_roll = Some t ->
  r < (65 # 100) + truth_bias e ->
  decide e opp_id (Some cur) my_roll round_index (r :: rs) = (Raise t, set_last e None, rs).
Proof.
  intros Ht Hr. simpl. rewrite Ht. simpl.
  assert (Hq : qlt r ((65 # 100) + truth_bias e) = true) by (apply qlt_true; exact Hr).
  rewrite Hq. reflexivity.
Qed.

(** The pending context agrees with the returned action: it records
    "CALL" exactly when the engine challenges, and always this opponent
    with "CALL" or "RAISE". *)
Theorem decide_action_pending_matches (e : Engine) (opp_id : string) (cur : option Claim)
    (my_roll : Roll) (round_index : Z) (rs : list Q) :
  let res := decide e opp_id cur my_roll round_index rs in
  (fst (fst res) = CallBluff <->
   exists ctx, last_context (snd (fst res)) = Some (opp_id, "CALL"%string, ctx)) /\
  (forall o a ctx, last_context (snd (fst res)) = Some (o, a, ctx) ->
     o = opp_id /\ (a = "CALL"%string \/ a = "RAISE"%string)).
Proof.
  cbv zeta.
  destruct cur as [cur|].
  - simpl decide_action.
    assert (Hb : forall truthful rs0,
      let res := bandit_path e opp_id cur my_roll round_index truthful rs0 in
      (fst (fst res) = CallBluff <->
       exists ctx, last_context (snd (fst res)) = Some (opp_id, "CALL"%string, ctx)) /\
      (forall o a ctx, last_context (snd (fst res)) = Some (o, a, ctx) ->
         o = opp_id /\ (a = "CALL"%string \/ a = "RAISE"%string))).
    { intros truthful rs0. cbv zeta.
      destruct (decide_bandit_cases e opp_id cur my_roll round_index truthful rs0)
        as [[Ha He] | [rs' Hr]].
      - rewrite Ha, He. simpl. split; [split; [intros _; eexists; reflexivity | reflexivity]|].
        intros o a ctx [= <- <- _]. split; [reflexivity | left; reflexivity].
      - rewrite Hr.
        destruct (raise_branch_shape next_higher_claim (set_profiles e (snd (profile_get opp_id (profiles e))))
                    opp_id cur (fst (profile_get opp_id (profiles e))) truthful
                    (snd (ctxs (fst (profile_get opp_id (profiles e))) cur my_roll round_index truthful)) rs')
          as [[c Hc] He].
        rewrite Hc, He. simpl. split.
        + split; [discriminate | intros [ctx Hctx]; discriminate].
        + intros o a ctx [= <- <- _]. split; [reflexivity | right; reflexivity]. }
    destruct (best_truthful_above compare_claims cur my_roll) as [t|] eqn:Ht.
    + destruct (rnd rs) as [r rs']. destruct (qlt r _).
      * simpl. split; [split; [discriminate | intros [ctx Hctx]; discriminate] | discriminate].
      * rewrite <- Ht. apply Hb.
    + rewrite <- Ht. apply Hb.
  - simpl. destruct (is_weak_truth _ _).
    + unfold pressure_jump_above. destruct (rnd rs).
      simpl. split; [split; [discriminate | intros [ctx Hctx]; discriminate] | discriminate].
    + simpl. split; [split; [discriminate | intros [ctx Hctx]; discriminate] | discriminate].
Qed.

(** Every outcome of [decide_action] with a current claim. *)
Lemma decide_action_cases (e : Engine) (opp_id : string) (cur : Claim) (my_roll : Roll)
    (round_index : Z) (rs : list Q) :
  let res := decide e opp_id (Some cur) my_roll round_index rs in
  let opp := fst (profile_get opp_id (profiles e)) in
  let ps := snd (profile_get opp_id (profiles e)) in
  let cs := ctxs opp cur my_roll round_index (best_truthful_above compare_claims cur my_roll) in
  ((exists c, fst (fst res) = Raise c) /\ snd (fst res) = set_last e None) \/
  (fst (fst res) = CallBluff /\
   snd (fst res) = set_last (set_profiles e ps) (Some (opp_id, "CALL"%string, fst cs))) \/
  ((exists c, fst (fst res) = Raise c) /\
   snd (fst res) = set_last (set_profiles e ps) (Some (opp_id, "RAISE"%string, snd cs))).
Proof.
  cbv zeta.
  assert (Hb : forall rs0,
    let res := bandit_path e opp_id cur my_roll round_index (best_truthful_above compare_claims cur my_roll) rs0 in
    let opp := fst (profile_get opp_id (profiles e)) in
    let ps := snd (profile_get opp_id (profiles e)) in
    let cs := ctxs opp cur my_roll round_index (best_truthful_above compare_claims cur my_roll) in
    (fst (fst res) = CallBluff /\
     snd (fst res) = set_last (set_profiles e ps) (Some (opp_id, "CALL"%string, fst cs))) \/
    ((exists c, fst (fst res) = Raise c) /\
     snd (fst res) = set_last (set_profiles e ps) (Some (opp_id, "RAISE"%string, snd cs)))).
  { intros rs0. cbv zeta.
    destruct (decide_bandit_cases e opp_id cur my_roll round_index
                (best_truthful_above compare_claims cur my_roll) rs0) as [H | [rs' Hr]].
    - left; exact H.
    - right. rewrite Hr. apply raise_branch_shape. }
  simpl decide_action.
  destruct (best_truthful_above compare_claims cur my_roll) as [t|] eqn:Ht.
  - destruct (rnd rs) as [r rs']. destruct (qlt r _).
    + left. split; [eexists; reflexivity | reflexivity].
    + right. apply Hb.
  - right. apply Hb.
Qed.

Lemma steps_up_rank (rank : Claim -> Z)
    (Hnext : forall c, (rank c < rank (next_higher_claim c))%Z) (n : nat) (c : Claim) :
  (rank c <= rank (steps_up next_higher_claim n c))%Z /\
  ((1 <= n)%nat -> (rank c < rank (steps_up next_higher_claim n c))%Z).
Proof.
  induction n as [|n [IH1 IH2]].
  - unfold steps_up. simpl. split; [lia | intros H; lia].
  - unfold steps_up in *. rewrite Nat.iter_succ. pose proof (Hnext (Nat.iter n next_higher_claim c)).
    split; [lia | intros _; lia].
Qed.

(** Under a grammar whose [compare_claims] follows a rank that
    [next_higher_claim] strictly increases, every raise [decide_action]
    makes against a current claim is strictly above it. *)
Theorem decide_action_raise_above (rank : Claim -> Z)
    (Hcmp : forall c d, (0 < compare_claims c d)%Z <-> (rank d < rank c)%Z)
    (Hnext : forall c, (rank c < rank (next_higher_claim c))%Z)
    (e : Engine) (opp_id : string) (cur : Claim) (my_roll : Roll) (round_index : Z)
    (rs : list Q) (c : Claim) :
  fst (fst (decide e opp_id (Some cur) my_roll round_index rs)) = Raise c ->
  (0 < compare_claims c cur)%Z.
Proof.
  assert (Htr : forall t, best_truthful_above compare_claims cur my_roll = Some t ->
                          (0 < compare_claims t cur)%Z).
  { unfold best_truthful_above. intros t.
    destruct (0 <? compare_claims (canonical_claim_from_roll my_roll) cur)%Z eqn:E; [|discriminate].
    intros [= <-]. apply Z.ltb_lt. exact E. }
  assert (Hst : forall n, (1 <= n)%nat -> (0 < compare_claims (steps_up next_higher_claim n cur) cur)%Z).
  { intros n Hn. apply Hcmp. apply (proj2 (steps_up_rank rank Hnext n cur) Hn). }
  assert (Hrb : forall rs0 c0,
    fst (fst (bandit_path e opp_id cur my_roll round_index
                (best_truthful_above compare_claims cur my_roll) rs0)) = Raise c0 ->
    (0 < compare_claims c0 cur)%Z).
  { intros rs0 c0.
    destruct (decide_bandit_cases e opp_id cur my_roll round_index
                (best_truthful_above compare_claims cur my_roll) rs0) as [[Ha _] | [rs' Hr]].
    - rewrite Ha. discriminate.
    - rewrite Hr. intros H. apply raise_branch_claim in H as [H | [n [Hn ->]]].
      + apply Htr. exact H.
      + apply Hst. exact Hn. }
  simpl decide_action.
  destruct (best_truthful_above compare_claims cur my_roll) as [t|] eqn:Ht.
  - destruct (rnd rs) as [r rs']. destruct (qlt r _).
    + cbn [fst]. intros [= <-]. apply Htr. reflexivity.
    + apply Hrb.
  - apply Hrb.
Qed.

(** Deciding and then observing the round outcome: the pending slot ends
    empty, and the bandit is unchanged after a fast-path raise, updated
    with the challenge vector after a challenge, and with the raise vector
    after a bandit-path raise, with reward +1 or -1. *)
Theorem decide_then_round_outcome (e : Engine) (opp_id : string) (cur : Claim) (my_roll : Roll)
    (round_index : Z) (rs : list Q) (did_cpu_win_round : bool) :
  let res := decide e opp_id (Some cur) my_roll round_index rs in
  let e2 := observe_round_outcome (snd (fst res)) did_cpu_win_round in
  let cs := ctxs (fst (profile_get opp_id (profiles e))) cur my_roll round_index
                 (best_truthful_above compare_claims cur my_roll) in
  let reward := if did_cpu_win_round then 1 else -1 in
  last_context e2 = None /\
  ((last_context (snd (fst res)) = None /\ bandit e2 = bandit e) \/
   (fst (fst res) = CallBluff /\ bandit e2 = lin_update (bandit e) (fst cs) reward) \/
   ((exists c, fst (fst res) = Raise c) /\ bandit e2 = lin_update (bandit e) (snd cs) reward)).
Proof.
  cbv zeta.
  destruct (decide_action_cases e opp_id cur my_roll round_index rs)
    as [[Ha He] | [[Ha He] | [Ha He]]]; rewrite He.
  - split; [reflexivity | left; split; reflexivity].
  - split; [reflexivity | right; left; split; [exact Ha | reflexivity]].
  - split; [reflexivity | right; right; split; [exact Ha | reflexivity]].
Qed.

End DecideMore.

Lemma decide_action_opening_witness :
  is_weak_truth mx_category (canonical_claim_from_roll (6, 6)%Z) = false /\
  decide_action mx_compare mx_next mx_category flat_score Engine_init "p"%string None (6, 6)%Z 0 [1] =
  (Raise (6, 6)%Z, set_last Engine_init None, [1]).
Proof.
  split; [reflexivity|].
  destruct (decide_action_opening mx_compare mx_next mx_category flat_score
              Engine_init "p"%string (6, 6)%Z 0%Z [1]) as [c [rs' [Heq Himp]]].
  destruct (Himp eq_refl) as [-> ->]. exact Heq.
Defined.

Lemma decide_action_truthful_fast_path_witness :
  best_truthful_above mx_compare (3, 2)%Z (4, 2)%Z = Some (4, 2)%Z /\
  decide_action mx_compare mx_next mx_category flat_score Engine_init "p"%string
    (Some (3, 2)%Z) (4, 2)%Z 0 [0] = (Raise (4, 2)%Z, set_last Engine_init None, []).
Proof.
  split; [reflexivity|].
  apply (decide_action_truthful_fast_path mx_compare mx_next mx_category flat_score
           Engine_init "p"%string (3, 2)%Z (4, 2)%Z 0%Z 0 [] (4, 2)%Z); [reflexivity|].
  vm_compute. reflexivity.
Defined.

Lemma decide_action_pending_matches_witness :
  fst (fst (decide_action mx_compare mx_next mx_category flat_score Engine_init "p"%string
              (Some (4, 1)%Z) (3, 1)%Z 0 [1])) = CallBluff /\
  exists ctx, last_context (snd (fst (decide_action mx_compare mx_next mx_category flat_score
                 Engine_init "p"%string (Some (4, 1)%Z) (3, 1)%Z 0 [1]))) =
              Some ("p"%string, "CALL"%string, ctx).
Proof.
  assert (H : fst (fst (decide_action mx_compare mx_next mx_category flat_score Engine_init "p"%string
              (Some (4, 1)%Z) (3, 1)%Z 0 [1])) = CallBluff) by (vm_compute; reflexivity).
  split; [exact H|].
  exact (proj1 (proj1 (decide_action_pending_matches mx_compare mx_next mx_category flat_score
                         Engine_init "p"%string (Some (4, 1)%Z) (3, 1)%Z 0%Z [1])) H).
Defined.

Lemma decide_action_raise_above_witness :
  fst (fst (decide_action toy_compare toy_next mx_category flat_score Engine_init "p"%string
              (Some (3, 2)%Z) (1, 1)%Z 0 [0])) = Raise (3, 3)%Z /\
  (0 < toy_compare (3, 3) (3, 2))%Z.
Proof.
  assert (H : fst (fst (decide_action toy_compare toy_next mx_category flat_score Engine_init "p"%string
              (Some (3, 2)%Z) (1, 1)%Z 0 [0])) = Raise (3, 3)%Z) by (vm_compute; reflexivity).
  split; [exact H|].
  refine (decide_action_raise_above toy_compare toy_next mx_category flat_score toy_rank
            _ _ Engine_init "p"%string (3, 2)%Z (1, 1)%Z 0%Z [0] (3, 3)%Z H).
  - intros c d. unfold toy_compare. pose proof (Z.sgn_spec (toy_rank c - toy_rank d)). lia.
  - intros c. unfold toy_next, toy_rank. simpl. lia.
Defined.

(** ** Utilities, observers and persistence *)

Section Utilities.

Variable compare_claims : Claim -> Claim -> Z.
Variable next_higher_claim : Claim -> Claim.
Variable categorize_claim : Claim -> string.
Variable claim_matches_roll : Claim -> Roll -> bool.

Abbreviation up := (steps_up next_higher_claim).

(** The canonical claim of a roll lists its dice high then low, does not
    depend on the order of the two dice, and is one of the two orders. *)
Theorem canonical_claim_from_roll_spec (roll : Roll) :
  let c := canonical_claim_from_roll roll in
  (snd c <= fst c)%Z /\
  canonical_claim_from_roll (snd roll, fst roll) = c /\
  (c = roll \/ c = (snd roll, fst roll)).
Proof.
  destruct roll as [x y]. unfold canonical_claim_from_roll. cbn [fst snd].
  split; [lia|]. split; [rewrite Z.max_comm, Z.min_comm; reflexivity|].
  destruct (Z.le_ge_cases x y).
  - right. rewrite Z.max_r, Z.min_l by lia. reflexivity.
  - left. rewrite Z.max_l, Z.min_r by lia. reflexivity.
Qed.

Lemma distance_loop_le (truth : Claim) (fuel steps : nat) (cur : Claim) :
  (steps <= 20)%nat -> (distance_loop compare_claims next_higher_claim truth fuel steps cur <= 20)%nat.
Proof.
  revert steps cur. induction fuel as [|fuel IH]; intros steps cur Hs; simpl; [exact Hs|].
  destruct ((compare_claims cur truth <? 0)%Z && Nat.ltb steps 20) eqn:E; [|exact Hs].
  apply andb_true_iff in E as [_ E]. apply Nat.ltb_lt in E. apply IH. lia.
Qed.

Lemma distance_loop_count (truth : Claim) (k : nat) :
  forall (fuel steps : nat) (cur : Claim),
  (steps + k <= 20)%nat -> (k <= fuel)%nat ->
  (forall j, (j < k)%nat -> (compare_claims (up j cur) truth < 0)%Z) ->
  (steps + k = 20)%nat \/ (0 <= compare_claims (up k cur) truth)%Z ->
  distance_loop compare_claims next_higher_claim truth fuel steps cur = (steps + k)%nat.
Proof.
  induction k as [|k IH]; intros fuel steps cur Hb Hf Hlt Hend.
  - destruct fuel as [|fuel]; simpl; [lia|].
    destruct ((compare_claims cur truth <? 0)%Z && Nat.ltb steps 20) eqn:E; [|lia].
    apply andb_true_iff in E as [E1 E2]. apply Z.ltb_lt in E1. apply Nat.ltb_lt in E2.
    exfalso. unfold steps_up in Hend. simpl in Hend. lia.
  - destruct fuel as [|fuel]; [lia|]. simpl.
    assert (H0 : (compare_claims cur truth < 0)%Z) by (apply (Hlt 0%nat); lia).
    assert (E1 : (compare_claims cur truth <? 0)%Z = true) by (apply Z.ltb_lt; exact H0).
    assert (E2 : Nat.ltb steps 20 = true) by (apply Nat.ltb_lt; lia).
    rewrite E1, E2. simpl.
    rewrite (IH fuel (S steps) (next_higher_claim cur)); [lia | lia | lia | |].
    + intros j Hj. unfold steps_up. rewrite <- Nat.iter_succ_r. apply (Hlt (S j)). lia.
    + unfold steps_up in *. rewrite <- Nat.iter_succ_r. lia.
Qed.

(** [_distance_from_next] lies between 0 and 20; it is 0 unless the
    truthful claim of the roll is above the current claim; otherwise it is
    the number of [next_higher_claim] steps from the current claim to the
    first claim not below the truthful one, capped at 20. *)
Theorem distance_from_next_spec (current_claim : Claim) (my_roll : Roll) :
  let truth := canonical_claim_from_roll my_roll in
  let dist := distance_from_next compare_claims next_higher_claim current_claim my_roll in
  0 <= dist <= 20 /\
  ((compare_claims truth current_claim <= 0)%Z -> dist = 0) /\
  (forall k, (k <= 20)%nat -> (0 < compare_claims truth current_claim)%Z ->
     (forall j, (j < k)%nat -> (compare_claims (up j current_claim) truth < 0)%Z) ->
     k = 20%nat \/ (0 <= compare_claims (up k current_claim) truth)%Z ->
     dist = inject_Z (Z.of_nat k)).
Proof.
  cbv zeta. unfold distance_from_next.
  split; [|split].
  - destruct (compare_claims _ current_claim <=? 0)%Z; [split; discriminate|].
    pose proof (distance_loop_le (canonical_claim_from_roll my_roll) 20 0 current_claim ltac:(lia)).
    set (n := distance_loop _ _ _ _ _ _) in *. split; unfold Qle; simpl; rewrite ?Z.mul_1_r; lia.
  - intros H. apply Z.leb_le in H. rewrite H. reflexivity.
  - intros k Hk Hpos Hlt Hend.
    assert (E : (compare_claims (canonical_claim_from_roll my_roll) current_claim <=? 0)%Z = false)
      by (apply Z.leb_gt; exact Hpos).
    rewrite E, (distance_loop_count _ k 20 0); [reflexivity | lia | lia | exact Hlt | lia].
Qed.

Lemma step_loop_le (target : Claim) (fuel steps : nat) (cur : Claim) :
  (steps <= 30)%nat -> (step_loop compare_claims next_higher_claim target fuel steps cur <= 30)%nat.
Proof.
  revert steps cur. induction fuel as [|fuel IH]; intros steps cur Hs; simpl; [exact Hs|].
  destruct ((compare_claims cur target <? 0)%Z && Nat.ltb steps 30) eqn:E; [|exact Hs].
  apply andb_true_iff in E as [_ E]. apply Nat.ltb_lt in E. apply IH. lia.
Qed.

Lemma step_loop_ge (target : Claim) (fuel steps : nat) (cur : Claim) :
  (steps <= step_loop compare_claims next_higher_claim target fuel steps cur)%nat.
Proof.
  revert steps cur. induction fuel as [|fuel IH]; intros steps cur; simpl; [lia|].
  destruct (_ && _); [|lia]. specialize (IH (S steps) (next_higher_claim cur)). lia.
Qed.

Lemma step_loop_count (target : Claim) (k : nat) :
  forall (fuel steps : nat) (cur : Claim),
  (steps + k <= 30)%nat -> (k <= fuel)%nat ->
  (forall j, (j < k)%nat -> (compare_claims (up j cur) target < 0)%Z) ->
  (steps + k = 30)%nat \/ (0 <= compare_claims (up k cur) target)%Z ->
  step_loop compare_claims next_higher_claim target fuel steps cur = (steps + k)%nat.
Proof.
  induction k as [|k IH]; intros fuel steps cur Hb Hf Hlt Hend.
  - destruct fuel as [|fuel]; simpl; [lia|].
    destruct ((compare_claims cur target <? 0)%Z && Nat.ltb steps 30) eqn:E; [|lia].
    apply andb_true_iff in E as [E1 E2]. apply Z.ltb_lt in E1. apply Nat.ltb_lt in E2.
    exfalso. unfold steps_up in Hend. simpl in Hend. lia.
  - destruct fuel as [|fuel]; [lia|]. simpl.
    assert (H0 : (compare_claims cur target < 0)%Z) by (apply (Hlt 0%nat); lia).
    assert (E1 : (compare_claims cur target <? 0)%Z = true) by (apply Z.ltb_lt; exact H0).
    assert (E2 : Nat.ltb steps 30 = true) by (apply Nat.ltb_lt; lia).
    rewrite E1, E2. simpl.
    rewrite (IH fuel (S steps) (next_higher_claim cur)); [lia | lia | lia | |].
    + intros j Hj. unfold steps_up. rewrite <- Nat.iter_succ_r. apply (Hlt (S j)). lia.
    + unfold steps_up in *. rewrite <- Nat.iter_succ_r. lia.
Qed.

(** [_step_distance a b] is at most 30; it is 0 when [a] is not below
    [b]; otherwise it counts the [next_higher_claim] steps from [a] to the
    first claim not below [b], capped at 30. *)
Theorem step_distance_spec (a b' : Claim) :
  let n := step_distance compare_claims next_higher_claim a b' in
  (n <= 30)%nat /\
  ((0 <= compare_claims a b')%Z -> n = 0%nat) /\
  (forall k, (k <= 30)%nat -> (compare_claims a b' < 0)%Z ->
     (forall j, (j < k)%nat -> (compare_claims (up j a) b' < 0)%Z) ->
     k = 30%nat \/ (0 <= compare_claims (up k a) b')%Z ->
     n = k).
Proof.
  cbv zeta. unfold step_distance. split; [|split].
  - destruct (0 <=? compare_claims a b')%Z; [lia|]. apply step_loop_le. lia.
  - intros H. apply Z.leb_le in H. rewrite H. reflexivity.
  - intros k Hk Hneg Hlt Hend.
    assert (E : (0 <=? compare_claims a b')%Z = false) by (apply Z.leb_gt; exact Hneg).
    rewrite E, (step_loop_count _ k 30 0); [reflexivity | lia | lia | exact Hlt | lia].
Qed.

Lemma step_loop_S (target : Claim) (fuel steps : nat) (cur : Claim) :
  step_loop compare_claims next_higher_claim target (S fuel) steps cur =
  if (compare_claims cur target <? 0)%Z && Nat.ltb steps 30
  then step_loop compare_claims next_higher_claim target fuel (S steps) (next_higher_claim cur)
  else steps.
Proof. reflexivity. Qed.

Lemma step_distance_one (a b' : Claim) :
  Nat.eqb (step_distance compare_claims next_higher_claim a b') 1 =
  (compare_claims a b' <? 0)%Z && (0 <=? compare_claims (next_higher_claim a) b')%Z.
Proof.
  unfold step_distance.
  destruct (0 <=? compare_claims a b')%Z eqn:E0.
  - apply Z.leb_le in E0. assert (E : (compare_claims a b' <? 0)%Z = false) by (apply Z.ltb_ge; lia).
    rewrite E. reflexivity.
  - apply Z.leb_gt in E0. assert (E : (compare_claims a b' <? 0)%Z = true) by (apply Z.ltb_lt; lia).
    rewrite E, step_loop_S, E. cbn [andb Nat.ltb Nat.leb].
    rewrite step_loop_S.
    destruct (compare_claims (next_higher_claim a) b' <? 0)%Z eqn:E1.
    + cbn [andb Nat.ltb Nat.leb].
      pose proof (step_loop_ge b' 28 2 (next_higher_claim (next_higher_claim a))).
      apply Z.ltb_lt in E1. assert (E2 : (0 <=? compare_claims (next_higher_claim a) b')%Z = false)
        by (apply Z.leb_gt; lia).
      rewrite E2. apply Nat.eqb_neq. lia.
    + cbn [andb]. apply Z.ltb_ge in E1. assert (E2 : (0 <=? compare_claims (next_higher_claim a) b')%Z = true)
        by (apply Z.leb_le; lia).
      rewrite E2. reflexivity.
Qed.

(** [self._profiles[opponent_id]] read back from the map it produces. *)
Lemma get_profile_get (id opp_id : string) (ps : list (string * OpponentProfile)) :
  Dict.get id (snd (profile_get opp_id ps)) =
  if String.eqb id opp_id then Some (fst (profile_get opp_id ps)) else Dict.get id ps.
Proof.
  unfold profile_get. rewrite get_setdefault.
  destruct (String.eqb id opp_id) eqn:E.
  - apply String.eqb_eq in E; subst id. unfold Dict.setdefault.
    destruct (Dict.get opp_id ps); reflexivity.
  - destruct (Dict.get id ps); reflexivity.
Qed.

Lemma fst_profile_get (opp_id : string) (ps : list (string * OpponentProfile)) :
  fst (profile_get opp_id ps) = Dict.get_default opp_id OpponentProfile_default ps.
Proof. unfold profile_get, Dict.setdefault, Dict.get_default. destruct (Dict.get opp_id ps); reflexivity. Qed.

(** Writing a profile back after [profile_get]: only that opponent changes. *)
Lemma get_write_profile (id opp_id : string) (p : OpponentProfile) (ps : list (string * OpponentProfile)) :
  Dict.get id (Dict.set opp_id p (snd (profile_get opp_id ps))) =
  if String.eqb id opp_id then Some p else Dict.get id ps.
Proof.
  rewrite get_set, get_profile_get. destruct (String.eqb id opp_id); reflexivity.
Qed.

(** [observe_our_raise_resolved] updates the opponent's call-rate tracker
    with [opponent_called] (on a fresh default profile for an unseen
    opponent) and touches nothing else: the other trackers of that
    profile, every other opponent, the bandit, the knobs and the pending
    context are unchanged. *)
Theorem observe_our_raise_resolved_spec (e : Engine) (opp_id : string) (cpu_claim : Claim)
    (cpu_roll : Roll) (opponent_called : bool) :
  let e' := observe_our_raise_resolved e opp_id cpu_claim cpu_roll opponent_called in
  let p := Dict.get_default opp_id OpponentProfile_default (profiles e) in
  e' = set_profiles e (profiles e') /\
  forall id, Dict.get id (profiles e') =
    if String.eqb id opp_id
    then Some (mkProfile (bluff_rate p) (update (call_rate p) opponent_called) (small_raise_pref p))
    else Dict.get id (profiles e).
Proof.
  cbv zeta. unfold observe_our_raise_resolved.
  rewrite <- fst_profile_get.
  destruct (profile_get opp_id (profiles e)) as [p ps] eqn:Hpg. cbn [fst].
  split; [destruct e; reflexivity|].
  intros id. simpl. change ps with (snd (p, ps)). rewrite <- Hpg, get_write_profile. reflexivity.
Qed.

(** [observe_opponent_raise_size] records in the opponent's
    small-raise tracker whether the new claim is one step up: the current
    claim is below the new one and its [next_higher_claim] is not. Nothing
    else changes. *)
Theorem observe_opponent_raise_size_spec (e : Engine) (opp_id : string) (current_claim new_claim : Claim) :
  let e' := observe_opponent_raise_size compare_claims next_higher_claim e opp_id current_claim new_claim in
  let p := Dict.get_default opp_id OpponentProfile_default (profiles e) in
  let small := ((compare_claims current_claim new_claim <? 0)%Z &&
                (0 <=? compare_claims (next_higher_claim current_claim) new_claim)%Z) in
  e' = set_profiles e (profiles e') /\
  forall id, Dict.get id (profiles e') =
    if String.eqb id opp_id
    then Some (mkProfile (bluff_rate p) (call_rate p) (update (small_raise_pref p) small))
    else Dict.get id (profiles e).
Proof.
  cbv zeta. unfold observe_opponent_raise_size. rewrite step_distance_one.
  rewrite <- fst_profile_get.
  destruct (profile_get opp_id (profiles e)) as [p ps] eqn:Hpg. cbn [fst].
  split; [destruct e; reflexivity|].
  intros id. simpl. change ps with (snd (p, ps)). rewrite <- Hpg, get_write_profile. reflexivity.
Qed.

(** [observe_showdown] updates, in the opponent's profile, the bluff-rate
    tracker of the claim's category with [was_bluff] (the claim does not
    match the revealed roll), starting from the prior (1, 1) for a
    category not yet tracked; the other categories, the other two trackers,
    every other opponent and the rest of the engine are unchanged. *)
Theorem observe_showdown_spec (e : Engine) (opp_id : string) (opponent_claim : Claim)
    (actual_opponent_roll : Roll) (caller_is_cpu : bool) :
  let e' := observe_showdown categorize_claim claim_matches_roll e opp_id opponent_claim
              actual_opponent_roll caller_is_cpu in
  let p := Dict.get_default opp_id OpponentProfile_default (profiles e) in
  let cat := categorize_claim opponent_claim in
  let was_bluff := negb (claim_matches_roll opponent_claim actual_opponent_roll) in
  e' = set_profiles e (profiles e') /\
  (forall id, id <> opp_id -> Dict.get id (profiles e') = Dict.get id (profiles e)) /\
  exists p', Dict.get opp_id (profiles e') = Some p' /\
    call_rate p' = call_rate p /\ small_raise_pref p' = small_raise_pref p /\
    forall k, Dict.get k (bluff_rate p') =
      if String.eqb k cat
      then Some (update (Dict.get_default cat (mkBeta 1 1) (bluff_rate p)) was_bluff)
      else Dict.get k (bluff_rate p).
Proof.
  cbv zeta. unfold observe_showdown.
  rewrite <- fst_profile_get.
  destruct (profile_get opp_id (profiles e)) as [p ps] eqn:Hpg. cbn [fst].
  destruct (Dict.setdefault (categorize_claim opponent_claim) (mkBeta 1 1) (bluff_rate p)) as [t br] eqn:Hsd.
  split; [destruct e; reflexivity|]. split.
  - intros id Hne. simpl. change ps with (snd (p, ps)). rewrite <- Hpg, get_write_profile.
    apply String.eqb_neq in Hne. rewrite Hne. reflexivity.
  - eexists. split.
    + simpl. rewrite get_set, String.eqb_refl. reflexivity.
    + split; [reflexivity|]. split; [reflexivity|].
      intros k. simpl. rewrite get_set.
      assert (Ht : t = Dict.get_default (categorize_claim opponent_claim) (mkBeta 1 1) (bluff_rate p)).
      { unfold Dict.setdefault, Dict.get_default in *.
        destruct (Dict.get _ (bluff_rate p)); congruence. }
      destruct (String.eqb k (categorize_claim opponent_claim)) eqn:E; [rewrite Ht; reflexivity|].
      change br with (snd (t, br)). rewrite <- Hsd, get_setdefault, E.
      destruct (Dict.get k (bluff_rate p)); reflexivity.
Qed.

End Utilities.

(** ** The reward vector of [LinUCB] *)

Lemma mat_add_col (u w : Vec) :
  mat_add (col u) (col w) = col (map (fun '(a, b) => a + b) (combine u w)).
Proof.
  unfold mat_add, col. revert w.
  induction u as [|a u IH]; intros [|c w]; simpl; try reflexivity.
  f_equal. apply IH.
Qed.

Lemma zeros_col_col (d : nat) : zeros_col d = col (repeat 0 d).
Proof.
  unfold zeros_col, col. induction d as [|d IH]; simpl; [reflexivity|]. f_equal. exact IH.
Qed.

Lemma b_train_col (us : list (Vec * Q)) :
  forall (l : LinUCB) (v : Vec),
  b l = col v -> Forall (fun u => List.length (fst u) = List.length v) us ->
  exists v', b (train l us) = col v' /\ List.length v' = List.length v /\
    forall i, (i < List.length v)%nat ->
      nth i v' 0 == nth i v 0 + fold_right (fun u acc => snd u * nth i (fst u) 0 + acc) 0 us.
Proof.
  induction us as [|[x r] us IH]; intros l v Hb Hlen; simpl.
  - exists v. split; [exact Hb|]. split; [reflexivity|]. intros i _. ring.
  - apply Forall_cons_iff in Hlen as [Hx Hlen]. simpl in Hx.
    set (v1 := map (fun '(a, b) => a + b) (combine v (map (fun xi => r * xi) x))).
    assert (Hb1 : b (lin_update l x r) = col v1) by (simpl; rewrite Hb; apply mat_add_col).
    assert (Hl1 : List.length v1 = List.length v)
      by (subst v1; rewrite length_map, length_combine, length_map; lia).
    rewrite <- Hl1 in Hlen.
    destruct (IH (lin_update l x r) v1 Hb1 Hlen) as [v' [H1 [H2 H3]]].
    exists v'. split; [exact H1|]. split; [lia|].
    intros i Hi. rewrite H3 by lia. subst v1.
    rewrite (nth_map_in _ _ _ _ (0, 0)) by (rewrite length_combine, length_map; lia).
    rewrite combine_nth by (rewrite length_map; lia).
    rewrite (nth_map_in _ _ _ _ 0) by lia. cbn [snd fst]. ring.
Qed.

(** Starting from [LinUCB(d, alpha)], after any sequence of updates with
    [d]-dimensional vectors [b] is still a [d x 1] column whose entry [i]
    is the sum of [reward * x_i] over the updates; [d] and [alpha] keep
    their values. *)
Theorem linucb_b_accumulates (d : nat) (a : Q) (us : list (Vec * Q)) :
  Forall (fun u => List.length (fst u) = d) us ->
  let l := train (LinUCB_init d a) us in
  lin_d l = d /\ lin_alpha l = a /\
  List.length (b l) = d /\ Forall (fun row => List.length row = 1%nat) (b l) /\
  forall i, (i < d)%nat ->
    nth i (flatten (b l)) 0 == fold_right (fun u acc => snd u * nth i (fst u) 0 + acc) 0 us.
Proof.
  intros Hlen. cbv zeta.
  assert (Hd : forall l, lin_d (train l us) = lin_d l /\ lin_alpha (train l us) = lin_alpha l).
  { clear Hlen. unfold train. induction us as [|u us' IH]; intros l; simpl; [split; reflexivity|].
    destruct (IH (lin_update l (fst u) (snd u))) as [H1 H2].
    rewrite H1, H2. split; reflexivity. }
  destruct (Hd (LinUCB_init d a)) as [Hd1 Hd2]. split; [exact Hd1|]. split; [exact Hd2|].
  assert (Hb0 : b (LinUCB_init d a) = col (repeat 0 d)) by apply zeros_col_col.
  assert (Hlen' : Forall (fun u => List.length (fst u) = List.length (repeat 0 d)) us)
    by (rewrite repeat_length; exact Hlen).
  destruct (b_train_col us (LinUCB_init d a) (repeat 0 d) Hb0 Hlen') as [v' [H1 [H2 H3]]].
  rewrite repeat_length in H2, H3.
  rewrite H1. unfold col at 1. rewrite length_map, H2.
  split; [reflexivity|]. split.
  - apply Forall_forall. intros row Hr. unfold col in Hr.
    apply in_map_iff in Hr as [? [<- _]]. reflexivity.
  - intros i Hi. rewrite flatten_col, H3 by exact Hi. rewrite nth_repeat. ring.
Qed.

(** ** [load_state] beyond the round trip *)

Lemma set_get_same {V} (k : string) (v : V) (d : list (string * V)) :
  Dict.get k d = Some v -> Dict.set k v d = d.
Proof.
  induction d as [|[k0 v0] t IH]; simpl; [discriminate|].
  destruct (String.eqb k k0) eqn:E.
  - intros [= ->]. apply String.eqb_eq in E; subst k0. reflexivity.
  - intros H. rewrite (IH H). reflexivity.
Qed.

Lemma get_In_NoDup {V} (k : string) (v : V) (d : list (string * V)) :
  NoDup (Dict.keys d) -> In (k, v) d -> Dict.get k d = Some v.
Proof.
  induction d as [|[k0 v0] t IH]; simpl; [intros _ []|].
  intros Hnd Hin. inversion Hnd as [|? ? Hnin Hnd']; subst.
  destruct Hin as [[= -> ->] | Hin]; [rewrite String.eqb_refl; reflexivity|].
  destruct (String.eqb k k0) eqn:E.
  - apply String.eqb_eq in E; subst k0. exfalso. apply Hnin.
    apply (in_map fst) in Hin. exact Hin.
  - exact (IH Hnd' Hin).
Qed.

Lemma set_profiles_same (e : Engine) : set_profiles e (profiles e) = e.
Proof. destruct e; reflexivity. Qed.

Lemma set_bandit_same (e : Engine) : set_bandit e (bandit e) = e.
Proof. destruct e; reflexivity. Qed.

Lemma fold_load_profiles_frame (l : list (string * PProfile)) (e1 : Engine) :
  exists ps, fold_left (fun e '(opp_id, data) =>
               set_profiles e (Dict.set opp_id (load_profile data) (profiles e))) l e1 =
             set_profiles e1 ps.
Proof.
  revert e1. induction l as [|[k1 d1] t IH]; intros e1; simpl.
  - exists (profiles e1). symmetry. apply set_profiles_same.
  - destruct (IH (set_profiles e1 (Dict.set k1 (load_profile d1) (profiles e1)))) as [ps ->].
    exists ps. reflexivity.
Qed.

Lemma fold_load_profiles_noop (l : list (string * PProfile)) (e1 : Engine) :
  (forall k data, In (k, data) l -> Dict.get k (profiles e1) = Some (load_profile data)) ->
  fold_left (fun e '(opp_id, data) =>
               set_profiles e (Dict.set opp_id (load_profile data) (profiles e))) l e1 = e1.
Proof.
  induction l as [|[k1 d1] t IH]; intros H; simpl; [reflexivity|].
  rewrite (set_get_same _ _ _ (H k1 d1 (or_introl eq_refl))), set_profiles_same.
  apply IH. intros k data Hin. apply H. right. exact Hin.
Qed.

(** [load_state] keeps the pending context and the three knobs; it
    replaces the bandit's [A] and [b] exactly when the state has a
    ["bandit"] entry (keeping [d] and [alpha]) and leaves the bandit alone
    otherwise; each opponent the state lists gets a profile rebuilt from
    its entry, and every other opponent keeps its profile. *)
Theorem load_state_frame (e : Engine) (st : PState) :
  let e' := load_state e st in
  last_context e' = last_context e /\ call_risk_bias e' = call_risk_bias e /\
  raise_bluff_cap e' = raise_bluff_cap e /\ truth_bias e' = truth_bias e /\
  bandit e' = match p_bandit st with
              | Some (A', b') => mkLinUCB (lin_d (bandit e)) (lin_alpha (bandit e)) A' (col b')
              | None => bandit e
              end /\
  (NoDup (Dict.keys (p_profiles st)) ->
   forall id, Dict.get id (profiles e') =
     match Dict.get id (p_profiles st) with
     | Some data => Some (load_profile data)
     | None => Dict.get id (profiles e)
     end).
Proof.
  cbv zeta.
  assert (Hfr : exists ps, load_state e st =
            set_profiles (match p_bandit st with
                          | Some (A', b') => set_bandit e (mkLinUCB (lin_d (bandit e)) (lin_alpha (bandit e)) A' (col b'))
                          | None => e end) ps)
    by (unfold load_state; apply fold_load_profiles_frame).
  destruct Hfr as [ps Hps].
  split; [|split; [|split; [|split; [|split]]]];
    try (rewrite Hps; destruct (p_bandit st) as [[A' b']|]; reflexivity).
  intros Hnd id. apply load_state_profiles. exact Hnd.
Qed.

(** Loading the same state twice is the same as loading it once (its
    opponent ids being distinct, as the keys of a dict are). *)
Theorem load_state_idempotent (e : Engine) (st : PState) :
  NoDup (Dict.keys (p_profiles st)) ->
  load_state (load_state e st) st = load_state e st.
Proof.
  intros Hnd. set (e1 := load_state e st).
  assert (Hprof : forall k data, In (k, data) (p_profiles st) ->
                    Dict.get k (profiles e1) = Some (load_profile data)).
  { intros k data Hin. subst e1. rewrite (load_state_profiles e st k Hnd).
    rewrite (get_In_NoDup k data _ Hnd Hin). reflexivity. }
  unfold load_state at 1.
  assert (Hb : match p_bandit st with
               | Some (A', b') => set_bandit e1 (mkLinUCB (lin_d (bandit e1)) (lin_alpha (bandit e1)) A' (col b'))
               | None => e1 end = e1).
  { destruct (p_bandit st) as [[A' b']|] eqn:Hpb; [|reflexivity].
    assert (He1 : bandit e1 = mkLinUCB (lin_d (bandit e)) (lin_alpha (bandit e)) A' (col b'))
      by (subst e1; apply load_state_bandit; exact Hpb).
    rewrite He1. simpl. rewrite <- He1. apply set_bandit_same. }
  rewrite Hb. apply fold_load_profiles_noop. exact Hprof.
Qed.


(** ** Witnesses *)

Lemma distance_from_next_spec_witness :
  (0 < mx_compare (canonical_claim_from_roll (1, 4)%Z) (3, 1)%Z)%Z /\
  distance_from_next mx_compare mx_next (3, 1)%Z (1, 4)%Z = inject_Z 2.
Proof.
  split; [vm_compute; reflexivity|].
  apply (proj2 (proj2 (distance_from_next_spec mx_compare mx_next (3, 1)%Z (1, 4)%Z)) 2%nat).
  - lia.
  - vm_compute. reflexivity.
  - intros j Hj. destruct j as [|[|j]]; [vm_compute; reflexivity | vm_compute; reflexivity | lia].
  - right. vm_compute. intros H; discriminate.
Defined.

Lemma step_distance_spec_witness :
  (mx_compare (3, 1)%Z (4, 1)%Z < 0)%Z /\ step_distance mx_compare mx_next (3, 1)%Z (4, 1)%Z = 2%nat.
Proof.
  split; [vm_compute; reflexivity|].
  apply (proj2 (proj2 (step_distance_spec mx_compare mx_next (3, 1)%Z (4, 1)%Z)) 2%nat).
  - lia.
  - vm_compute. reflexivity.
  - intros j Hj. destruct j as [|[|j]]; [vm_compute; reflexivity | vm_compute; reflexivity | lia].
  - right. vm_compute. intros H; discriminate.
Defined.

Lemma linucb_b_accumulates_witness :
  Forall (fun u => List.length (fst u) = 2%nat) [([1; 2], 3); ([1; 0], -1)] /\
  nth 1 (flatten (b (train (LinUCB_init 2 (9 # 10)) [([1; 2], 3); ([1; 0], -1)]))) 0 == 6.
Proof.
  assert (H : Forall (fun u => List.length (fst u) = 2%nat) [([1; 2], 3); ([1; 0], -1)])
    by (repeat constructor).
  split; [exact H|].
  destruct (linucb_b_accumulates 2 (9 # 10) _ H) as [_ [_ [_ [_ Hb]]]].
  rewrite (Hb 1%nat ltac:(lia)). vm_compute. reflexivity.
Defined.

Lemma load_state_idempotent_witness :
  NoDup (Dict.keys (p_profiles st_only_double)) /\
  load_state (load_state engine_with_p st_only_double) st_only_double =
  load_state engine_with_p st_only_double.
Proof.
  assert (H : NoDup (Dict.keys (p_profiles st_only_double))) by (repeat constructor; intros []).
  split; [exact H | exact (load_state_idempotent engine_with_p st_only_double H)].
Defined.
